(** * kcolor.h: fixed-point colours and the kd3 colour index of gifsicle

    A shallow embedding of [src/kcolor.h].  C integers are values of [Z]
    with the conversions of a 32-bit two's-complement platform written out;
    array reads are bounds-checked and report [OutOfBounds] where the C code
    would read outside the object; [assert] reports [AssertionFailed]; the
    one [while] loop of the header runs on fuel and reports [OutOfFuel]. *)

From Stdlib Require Import ZArith List Lia Bool.
Import ListNotations.
Local Open Scope Z_scope.

(* ================================================================== *)
(** ** C integer conversions *)

Module CInt.

(** Conversion to a signed type of [bits] bits (modular, two's complement). *)
Definition wrap_signed (bits z : Z) : Z :=
  (z + 2 ^ (bits - 1)) mod 2 ^ bits - 2 ^ (bits - 1).

Definition to_int16 (z : Z) : Z := wrap_signed 16 z.
Definition to_int32 (z : Z) : Z := wrap_signed 32 z.
Definition to_uint32 (z : Z) : Z := z mod 2 ^ 32.

Definition INT16_MIN : Z := - 2 ^ 15.
Definition INT16_MAX : Z := 2 ^ 15 - 1.
Definition UINT32_MAX : Z := 2 ^ 32 - 1.

End CInt.
Import CInt.

(* ================================================================== *)
(** ** Outcomes of a run *)

Inductive fault : Type :=
| OutOfBounds        (* a read outside an array *)
| AssertionFailed    (* a failed [assert] *)
| OutOfFuel.         (* the loop budget of the model is used up *)

Inductive outcome (A : Type) : Type :=
| Done (v : A)
| Stop (f : fault).
Arguments Done {A} v.
Arguments Stop {A} f.

Definition bind {A B : Type} (m : outcome A) (k : A -> outcome B) : outcome B :=
  match m with
  | Done v => k v
  | Stop f => Stop f
  end.

Declare Scope outcome_scope.
Delimit Scope outcome_scope with outcome.
Notation "x <- m ;; k" := (bind m (fun x => k))
  (at level 100, m at next level, right associativity) : outcome_scope.
Local Open Scope outcome_scope.

(** [arr[i]] for a C array held as a list. *)
Definition array_get {A : Type} (arr : list A) (i : Z) : outcome A :=
  if i <? 0 then Stop OutOfBounds
  else match nth_error arr (Z.to_nat i) with
       | Some v => Done v
       | None => Stop OutOfBounds
       end.

(* ================================================================== *)
(** ** kcolor *)

Definition KC_MAX : Z := 0x7FFF.
Definition KC_WHOLE : Z := 0x8000.
Definition KC_HALF : Z := 0x4000.
Definition KC_BITS : Z := 15.

(** [struct kcolor { int16_t a[3]; }] *)
Record kcolor : Type := Kcolor { a_0 : Z; a_1 : Z; a_2 : Z }.

(** [x->a[d]], for the [d] in 0..2 the header uses. *)
Definition kc_a (x : kcolor) (d : Z) : Z :=
  if d =? 0 then a_0 x else if d =? 1 then a_1 x else a_2 x.

(** [x->a[d] = v]: the store converts [v] to [int16_t]. *)
Definition kc_store (x : kcolor) (d v : Z) : kcolor :=
  if d =? 0 then Kcolor (to_int16 v) (a_1 x) (a_2 x)
  else if d =? 1 then Kcolor (a_0 x) (to_int16 v) (a_2 x)
  else Kcolor (a_0 x) (a_1 x) (to_int16 v).

(** The components are values of [int16_t]. *)
Definition kc_int16 (x : kcolor) : Prop :=
  INT16_MIN <= a_0 x <= INT16_MAX /\
  INT16_MIN <= a_1 x <= INT16_MAX /\
  INT16_MIN <= a_2 x <= INT16_MAX.

(** The header's invariant: 15 bits of precision, 0..KC_MAX. *)
Definition kc_valid (x : kcolor) : Prop :=
  0 <= a_0 x <= KC_MAX /\ 0 <= a_1 x <= KC_MAX /\ 0 <= a_2 x <= KC_MAX.

Definition kc_validb (x : kcolor) : bool :=
  (0 <=? a_0 x) && (a_0 x <=? KC_MAX) &&
  (0 <=? a_1 x) && (a_1 x <=? KC_MAX) &&
  (0 <=? a_2 x) && (a_2 x <=? KC_MAX).

(** [#define KC_CLAMPV(v) ((v) < 0 ? 0 : ((v) < KC_MAX ? (v) : KC_MAX))] *)
Definition KC_CLAMPV (v : Z) : Z :=
  if v <? 0 then 0 else if v <? KC_MAX then v else KC_MAX.

(** [kc_distance]: the differences are [int32_t], the products and sums are
    [int] arithmetic (wrapping at 32 bits), the result is converted to
    [uint32_t] on return. *)
Definition kc_distance (x y : kcolor) : Z :=
  let d0 := to_int32 (a_0 x - a_0 y) in
  let d1 := to_int32 (a_1 x - a_1 y) in
  let d2 := to_int32 (a_2 x - a_2 y) in
  to_uint32 (to_int32 (d0 * d0 + d1 * d1 + d2 * d2)).

(** The mathematical sum of squared differences, the value [kc_distance]
    is meant to return. *)
Definition sq_dist (x y : kcolor) : Z :=
  (a_0 x - a_0 y) * (a_0 x - a_0 y)
  + (a_1 x - a_1 y) * (a_1 x - a_1 y)
  + (a_2 x - a_2 y) * (a_2 x - a_2 y).

(** [kc_luminance]: [int] arithmetic, arithmetic right shift. *)
Definition kc_luminance (x : kcolor) : Z :=
  Z.shiftr (to_int32 (306 * a_0 x + 601 * a_1 x + 117 * a_2 x)) 10.

(** [x->a[0] = x->a[1] = x->a[2] = kc_luminance(x)]: the chain assigns
    right to left, each store converting to [int16_t]. *)
Definition kc_luminance_transform (x : kcolor) : kcolor :=
  let l := kc_luminance x in
  let x2 := kc_store x 2 l in
  let x1 := kc_store x2 1 (kc_a x2 2) in
  kc_store x1 0 (kc_a x1 1).

(* ================================================================== *)
(** ** Gamma tables and the gamma transforms *)

Section Gamma.

(** [extern uint16_t* gamma_tables[2]]: the tables are defined outside
    this header, so they are a parameter here.  [gamma_tables[0]] is the
    forward table, [gamma_tables[1]] the reverse table. *)
Variable gamma_tables : list (list Z).

(** [gamma_tables[j][i]] *)
Definition gamma_at (j i : Z) : outcome Z :=
  t <- array_get gamma_tables j ;; array_get t i.

(** [kc_set8g] *)
Definition kc_set8g (x : kcolor) (a0 a1 a2 : Z) : outcome kcolor :=
  g0 <- gamma_at 0 a0 ;;
  let x := kc_store x 0 g0 in
  g1 <- gamma_at 0 a1 ;;
  let x := kc_store x 1 g1 in
  g2 <- gamma_at 0 a2 ;;
  Done (kc_store x 2 g2).

(** The [while] loop of [kc_revgamma_transform] for the component value
    [xd], started at candidate [c].  One unit of fuel is one evaluation of
    the loop guard; [&&] reads the table only when [c < 0x7F80]. *)
Fixpoint revgamma_probe (fuel : nat) (xd c : Z) : outcome Z :=
  match fuel with
  | O => Stop OutOfFuel
  | S fuel' =>
      if c <? 0x7F80 then
        g <- gamma_at 0 (Z.shiftr (c + 0x80) 7) ;;
        if xd >=? g then revgamma_probe fuel' xd (c + 0x80) else Done c
      else Done c
  end.

(** The body of the [for] loop, for component [d]. *)
Definition revgamma_component (fuel : nat) (x : kcolor) (d : Z) : outcome kcolor :=
  c0 <- gamma_at 1 (Z.shiftr (kc_a x d) 7) ;;
  c <- revgamma_probe fuel (kc_a x d) c0 ;;
  Done (kc_store x d c).

(** [kc_revgamma_transform], each inner loop on [fuel]. *)
Definition kc_revgamma_transform_fuel (fuel : nat) (x : kcolor) : outcome kcolor :=
  x <- revgamma_component fuel x 0 ;;
  x <- revgamma_component fuel x 1 ;;
  revgamma_component fuel x 2.

(** Guard evaluations that every run of the probing loop stays within. *)
Definition revgamma_fuel : nat := 257.

Definition kc_revgamma_transform (x : kcolor) : outcome kcolor :=
  kc_revgamma_transform_fuel revgamma_fuel x.

End Gamma.

(* ================================================================== *)
(** ** wkcolor *)

(** [struct wkcolor { int32_t a[3]; }] *)
Record wkcolor : Type := Wkcolor { wa_0 : Z; wa_1 : Z; wa_2 : Z }.

(** [wkc_clear] *)
Definition wkc_clear (x : wkcolor) : wkcolor := Wkcolor 0 0 0.

(* ================================================================== *)
(** ** kd3_tree *)

Section Kd3.

Variable gamma_tables : list (list Z).

(** [typedef struct kd3_treepos kd3_treepos]: the header leaves the node
    type incomplete. *)
Variable kd3_treepos : Type.

(** [struct kd3_tree].  The two heap arrays that may be absent ([tree],
    [xradius]) are optional; [transform] may be NULL. *)
Record kd3_tree : Type := Kd3_tree {
  tree : option (list kd3_treepos);
  ntree : Z;
  disabled : Z;
  ks : list kcolor;
  nitems : Z;
  items_cap : Z;
  maxdepth : Z;
  transform : option (kcolor -> kcolor);
  xradius : option (list Z)
}.

(** [kd3->disabled = i] *)
Definition set_disabled (kd3 : kd3_tree) (i : Z) : kd3_tree :=
  {| tree := tree kd3; ntree := ntree kd3; disabled := i;
     ks := ks kd3; nitems := nitems kd3; items_cap := items_cap kd3;
     maxdepth := maxdepth kd3; transform := transform kd3;
     xradius := xradius kd3 |}.

(** [kd3_disable]: both assertions (enabled), then the store.  The casts
    to [unsigned] are conversions to [uint32_t]. *)
Definition kd3_disable (kd3 : kd3_tree) (i : Z) : outcome kd3_tree :=
  if to_uint32 i <? to_uint32 (nitems kd3) then
    if (disabled kd3 <? 0) || (disabled kd3 =? i) then
      Done (set_disabled kd3 i)
    else Stop AssertionFailed
  else Stop AssertionFailed.

(** [kd3_enable_all] *)
Definition kd3_enable_all (kd3 : kd3_tree) : kd3_tree :=
  set_disabled kd3 (-1).

(** The fields agree with the stored colours, and every [int] field is an
    [int]. *)
Definition kd3_wf (kd3 : kd3_tree) : Prop :=
  nitems kd3 = Z.of_nat (length (ks kd3)) /\
  nitems kd3 < 2 ^ 31 /\
  - 2 ^ 31 <= disabled kd3 < 2 ^ 31.

(** *** Operations declared in the header and defined elsewhere *)

(** Modelled from the spec: [kd3_add_transformed] is only declared in
    [kcolor.h].  The spec: append the colour, its index is the insertion
    order; capacity grows as needed; an insertion after a build
    invalidates the tree and the radius data. *)
Definition kd3_add_transformed (kd3 : kd3_tree) (k : kcolor) : kd3_tree :=
  {| tree := None; ntree := 0; disabled := disabled kd3;
     ks := ks kd3 ++ [k]; nitems := nitems kd3 + 1;
     items_cap := Z.max (items_cap kd3) (nitems kd3 + 1);
     maxdepth := maxdepth kd3; transform := transform kd3;
     xradius := None |}.

(** [if (kd3->transform) kd3->transform(&k)] *)
Definition apply_transform (kd3 : kd3_tree) (k : kcolor) : kcolor :=
  match transform kd3 with
  | Some f => f k
  | None => k
  end.

(** Modelled from the spec: [kd3_add8g] is only declared in [kcolor.h].
    The spec: gamma-encode the three channel values, apply the index's
    transform if one is configured, then insert. *)
Definition kd3_add8g (kd3 : kd3_tree) (a0 a1 a2 : Z) : outcome kd3_tree :=
  k <- kc_set8g gamma_tables (Kcolor 0 0 0) a0 a1 a2 ;;
  Done (kd3_add_transformed kd3 (apply_transform kd3 k)).

(** The squared distance from [p], the colour of index [i], to its
    nearest other colour in [l] (indexes from [j] on); [None] when there
    is no other colour. *)
Fixpoint nearest_other (p : kcolor) (i j : Z) (l : list kcolor)
         (best : option Z) : option Z :=
  match l with
  | [] => best
  | q :: l' =>
      let best' :=
        if j =? i then best
        else match best with
             | Some d => Some (Z.min d (kc_distance p q))
             | None => Some (kc_distance p q)
             end in
      nearest_other p i (j + 1) l' best'
  end.

(** The radius derived from the nearest-neighbour distance: the squared
    radius of the sphere inscribed in the colour's Voronoi cell, half the
    distance, so a quarter of the squared distance; unbounded (the
    largest [unsigned]) for a colour with no neighbour. *)
Definition exclusive_radius (nearest : option Z) : Z :=
  match nearest with
  | Some d => d / 4
  | None => UINT32_MAX
  end.

Fixpoint xradius_from (all : list kcolor) (i : Z) (l : list kcolor) : list Z :=
  match l with
  | [] => []
  | p :: l' =>
      exclusive_radius (nearest_other p i 0 all None)
        :: xradius_from all (i + 1) l'
  end.

(** Modelled from the spec: [kd3_build_xradius] is only declared in
    [kcolor.h].  The spec (4.4 and the glossary): for every colour the
    squared distance to its nearest other colour, all pairs; the
    exclusive radius is the inscribed-sphere bound derived from it; a
    single colour has an unbounded radius. *)
Definition kd3_build_xradius (kd3 : kd3_tree) : kd3_tree :=
  {| tree := tree kd3; ntree := ntree kd3; disabled := disabled kd3;
     ks := ks kd3; nitems := nitems kd3; items_cap := items_cap kd3;
     maxdepth := maxdepth kd3; transform := transform kd3;
     xradius := Some (xradius_from (ks kd3) 0 (ks kd3)) |}.

(** The exhaustive scan: the best enabled index so far and its distance.
    A later colour replaces the best one only when strictly closer, so the
    lowest index wins a tie. *)
Fixpoint closest_scan (dis : Z) (k : kcolor) (j : Z) (l : list kcolor)
         (acc : option (Z * Z)) : option (Z * Z) :=
  match l with
  | [] => acc
  | p :: l' =>
      let acc' :=
        if j =? dis then acc
        else
          let dist := kc_distance p k in
          match acc with
          | Some (_, mindist) =>
              if dist <? mindist then Some (j, dist) else acc
          | None => Some (j, dist)
          end in
      closest_scan dis k (j + 1) l' acc'
  end.

(** Modelled from the spec: [kd3_closest_transformed] is only declared in
    [kcolor.h].  The spec (4.6, 7, 8.4): the result is the nearest enabled
    colour by exhaustive linear-scan comparison, the disabled index being
    skipped as if absent, the lowest index winning a tie; a query before a
    build is detected and aborts.  With no enabled colour the result is
    [-1]. *)
Definition kd3_closest_transformed (kd3 : kd3_tree) (k : kcolor) : outcome Z :=
  match tree kd3 with
  | None => Stop AssertionFailed
  | Some _ =>
      match closest_scan (disabled kd3) k 0 (ks kd3) None with
      | Some (r, _) => Done r
      | None => Done (-1)
      end
  end.

(** Modelled from the spec: [kd3_closest8g] is only declared in
    [kcolor.h].  The spec: gamma-encode, apply the transform, delegate to
    closest-transformed. *)
Definition kd3_closest8g (kd3 : kd3_tree) (a0 a1 a2 : Z) : outcome Z :=
  k <- kc_set8g gamma_tables (Kcolor 0 0 0) a0 a1 a2 ;;
  kd3_closest_transformed kd3 (apply_transform kd3 k).

(** A built index: the partition tree exists and the counters agree with
    the colours. *)
Definition kd3_built (kd3 : kd3_tree) : Prop :=
  tree kd3 <> None /\ kd3_wf kd3.

(** The exclusive radii are those of the current colours. *)
Definition xradius_valid (kd3 : kd3_tree) : Prop :=
  xradius kd3 = xradius (kd3_build_xradius kd3).

End Kd3.

Arguments tree {kd3_treepos} k.
Arguments ntree {kd3_treepos} k.
Arguments disabled {kd3_treepos} k.
Arguments ks {kd3_treepos} k.
Arguments nitems {kd3_treepos} k.
Arguments items_cap {kd3_treepos} k.
Arguments maxdepth {kd3_treepos} k.
Arguments transform {kd3_treepos} k.
Arguments xradius {kd3_treepos} k.
Arguments set_disabled {kd3_treepos} kd3 i.
Arguments kd3_disable {kd3_treepos} kd3 i.
Arguments kd3_enable_all {kd3_treepos} kd3.
Arguments kd3_wf {kd3_treepos} kd3.
Arguments kd3_add_transformed {kd3_treepos} kd3 k.
Arguments apply_transform {kd3_treepos} kd3 k.
Arguments kd3_add8g gamma_tables {kd3_treepos} kd3 a0 a1 a2.
Arguments kd3_build_xradius {kd3_treepos} kd3.
Arguments kd3_closest_transformed {kd3_treepos} kd3 k.
Arguments kd3_closest8g gamma_tables {kd3_treepos} kd3 a0 a1 a2.
Arguments kd3_built {kd3_treepos} kd3.
Arguments xradius_valid {kd3_treepos} kd3.

(* ================================================================== *)
(** ** Vocabulary of the properties *)

(** A table of 256 entries of 15 bits. *)
Definition table_okb (t : list Z) : bool :=
  Nat.eqb (length t) 256 && forallb (fun v => (0 <=? v) && (v <=? KC_MAX)) t.

(** [gamma_tables] holds exactly the forward and the reverse table. *)
Definition gamma_tables_okb (gamma_tables : list (list Z)) : bool :=
  match gamma_tables with
  | [f; r] => table_okb f && table_okb r
  | _ => false
  end.

(** The forward table never decreases. *)
Definition forward_monotone (gamma_tables : list (list Z)) : Prop :=
  forall i j gi gj,
    i <= j ->
    gamma_at gamma_tables 0 i = Done gi ->
    gamma_at gamma_tables 0 j = Done gj ->
    gi <= gj.

(** The forward-gamma equivalent of the 15-bit value [c], sampled every 128
    units, is [gamma_tables[0][c >> 7]]; it does not exceed [xd]. *)
Definition forward_le (gamma_tables : list (list Z)) (c xd : Z) : Prop :=
  exists g, gamma_at gamma_tables 0 (Z.shiftr c 7) = Done g /\ g <= xd.

(** It exceeds [xd]. *)
Definition forward_gt (gamma_tables : list (list Z)) (c xd : Z) : Prop :=
  exists g, gamma_at gamma_tables 0 (Z.shiftr c 7) = Done g /\ xd < g.

(** The reverse-gamma result as the specification words it: [r] is the
    largest 15-bit value, among those reached from the estimate [c0] in
    steps of 128, whose forward-gamma equivalent does not exceed [xd]. *)
Definition largest_not_exceeding (gamma_tables : list (list Z)) (xd c0 r : Z) : Prop :=
  (exists n : nat, r = c0 + 0x80 * Z.of_nat n) /\
  0 <= r <= KC_MAX /\
  forward_le gamma_tables r xd /\
  forall n : nat,
    c0 + 0x80 * Z.of_nat n <= KC_MAX ->
    forward_le gamma_tables (c0 + 0x80 * Z.of_nat n) xd ->
    c0 + 0x80 * Z.of_nat n <= r.

(** What the probing loop computes: [r] is reached from the estimate [c0]
    by [n] upward steps of 128, every step taken from a candidate below
    [0x7F80] to one whose forward-gamma equivalent does not exceed [xd];
    the loop stopped at the bound or before a candidate whose forward-gamma
    equivalent exceeds [xd]. *)
Definition probed_from (gamma_tables : list (list Z)) (xd c0 r : Z) : Prop :=
  exists n : nat,
    r = c0 + 0x80 * Z.of_nat n /\
    (forall j : nat, (j < n)%nat ->
       c0 + 0x80 * Z.of_nat j < 0x7F80 /\
       forward_le gamma_tables (c0 + 0x80 * Z.of_nat (S j)) xd) /\
    (0x7F80 <= r \/ forward_gt gamma_tables (r + 0x80) xd).

(** Invariant of the exhaustive scan over the colours [seen] so far: with
    no best index yet every index seen is the disabled one; otherwise the
    best index [r] is enabled, [d] is its distance to [k], no enabled index
    seen is closer, and every enabled index below [r] is strictly farther. *)
Definition scan_inv (dis : Z) (k : kcolor) (seen : list kcolor)
           (acc : option (Z * Z)) : Prop :=
  match acc with
  | None => forall j p, array_get seen j = Done p -> j = dis
  | Some (r, d) =>
      r <> dis /\
      (exists p, array_get seen r = Done p /\ d = kc_distance p k) /\
      forall j p, array_get seen j = Done p -> j <> dis ->
                  d <= kc_distance p k /\ (j < r -> d < kc_distance p k)
  end.

(** Invariant of the nearest-neighbour scan for the colour [p] of index
    [i]: [best] is a lower bound of the distances to the other colours
    seen. *)
Definition near_inv (p : kcolor) (i : Z) (seen : list kcolor)
           (best : option Z) : Prop :=
  forall j q, array_get seen j = Done q -> j <> i ->
              exists d, best = Some d /\ d <= kc_distance p q.

(** [r] answers the query [k] on the colours [l] with index [i] excluded:
    [r] is not [i], and the colour of [r] is at least as close to [k], by
    [kc_distance], as the colour of every index other than [i]. *)
Definition nearest_enabled (l : list kcolor) (i : Z) (k : kcolor) (r : Z) : Prop :=
  r <> i /\
  forall j pj, array_get l j = Done pj -> j <> i ->
    exists pr, array_get l r = Done pr /\
               kc_distance pr k <= kc_distance pj k.

(** One component of [kc_revgamma_transform]: for the component value [xd]
    the reverse table gives the estimate [e] and the probing loop, on the
    standard budget, ends at [r], a 15-bit value. *)
Definition component_run (gamma_tables : list (list Z)) (xd e r : Z) : Prop :=
  gamma_at gamma_tables 1 (Z.shiftr xd 7) = Done e /\
  revgamma_probe gamma_tables revgamma_fuel xd e = Done r /\
  0 <= r <= KC_MAX.

(** The channel value [j] can be recovered from its gamma encoding [g]:
    the reverse-table estimate for [g] samples the forward table at [j] or
    below, and the forward entry after [j], if any, is larger than [g]. *)
Definition roundtrip_channel (gamma_tables : list (list Z)) (j : Z) : Prop :=
  exists g e,
    gamma_at gamma_tables 0 j = Done g /\
    gamma_at gamma_tables 1 (Z.shiftr g 7) = Done e /\
    Z.shiftr e 7 <= j /\
    forall g', gamma_at gamma_tables 0 (j + 1) = Done g' -> g < g'.

(** Clamping a raw channel value into the 8-bit range, as the
    specification words it. *)
Definition clamp_channel (v : Z) : Z :=
  if v <? 0 then 0 else if v <? 255 then v else 255.

(* ================================================================== *)
(** ** Sample data *)

Module Sample.

(** Tables of the identity gamma (1.0): the forward entry is
    [j * 32767 / 255], the reverse entry [j * 32767 / 256], both rounded
    to nearest.  Both tables have 256 non-decreasing 15-bit entries. *)
Definition indexes : list Z := map Z.of_nat (seq 0 256).
Definition forward_table : list Z :=
  map (fun j => (2 * j * 32767 + 255) / 510) indexes.
Definition reverse_table : list Z :=
  map (fun j => (2 * j * 32767 + 256) / 512) indexes.
Definition tables : list (list Z) := [forward_table; reverse_table].

(** A built index over black, white and red (15-bit components), the
    partition tree left abstract. *)
Definition black : kcolor := Kcolor 0 0 0.
Definition white : kcolor := Kcolor 32767 32767 32767.
Definition red : kcolor := Kcolor 32767 0 0.

Definition palette : kd3_tree unit :=
  {| tree := Some [tt]; ntree := 1; disabled := -1;
     ks := [black; white; red]; nitems := 3; items_cap := 4;
     maxdepth := 1; transform := None; xradius := None |}.

Definition built : kd3_tree unit := kd3_build_xradius palette.

(** The built index with red, index 2, disabled. *)
Definition without_red : kd3_tree unit := set_disabled built 2.

(** A colour close to red. *)
Definition near_red : kcolor := Kcolor 32000 100 100.

End Sample.

(* ================================================================== *)
(** * Properties *)

(** ** Integer conversions *)

Lemma to_int32_small (z : Z) : - 2 ^ 31 <= z < 2 ^ 31 -> to_int32 z = z.
Proof.
  intros H. unfold to_int32, wrap_signed.
  change (2 ^ (32 - 1)) with (2 ^ 31) in *.
  rewrite Z.mod_small; lia.
Qed.

Lemma to_int16_small (z : Z) : INT16_MIN <= z <= INT16_MAX -> to_int16 z = z.
Proof.
  unfold INT16_MIN, INT16_MAX, to_int16, wrap_signed. intros H.
  change (2 ^ (16 - 1)) with (2 ^ 15) in *.
  rewrite Z.mod_small; lia.
Qed.

Lemma to_int16_range (z : Z) : INT16_MIN <= to_int16 z <= INT16_MAX.
Proof.
  unfold INT16_MIN, INT16_MAX, to_int16, wrap_signed.
  change (2 ^ (16 - 1)) with (2 ^ 15).
  pose proof (Z.mod_pos_bound (z + 2 ^ 15) (2 ^ 16)). lia.
Qed.

(** A signed conversion changes the value by a multiple of [2^32]. *)
Lemma to_int32_congr (z : Z) : exists q, to_int32 z = z + q * 2 ^ 32.
Proof.
  exists (- ((z + 2 ^ 31) / 2 ^ 32)). unfold to_int32, wrap_signed.
  change (2 ^ (32 - 1)) with (2 ^ 31).
  rewrite Z.mod_eq by lia. ring.
Qed.

Lemma to_uint32_to_int32 (z : Z) : to_uint32 (to_int32 z) = to_uint32 z.
Proof.
  destruct (to_int32_congr z) as [q ->]. unfold to_uint32.
  apply Z_mod_plus_full.
Qed.

Lemma to_uint32_range (z : Z) : 0 <= to_uint32 z <= UINT32_MAX.
Proof.
  unfold to_uint32, UINT32_MAX.
  pose proof (Z.mod_pos_bound z (2 ^ 32)). lia.
Qed.

(** ** Squared distance *)

(** Whatever the components, the code returns the sum of squares reduced
    modulo [2^32]. *)
Lemma kc_distance_mod (x y : kcolor) : kc_distance x y = sq_dist x y mod 2 ^ 32.
Proof.
  unfold kc_distance, sq_dist. cbv zeta.
  rewrite to_uint32_to_int32. unfold to_uint32.
  destruct (to_int32_congr (a_0 x - a_0 y)) as [q0 ->].
  destruct (to_int32_congr (a_1 x - a_1 y)) as [q1 ->].
  destruct (to_int32_congr (a_2 x - a_2 y)) as [q2 ->].
  set (M := 2 ^ 32). set (u := a_0 x - a_0 y). set (v := a_1 x - a_1 y).
  set (w := a_2 x - a_2 y).
  replace ((u + q0 * M) * (u + q0 * M) + (v + q1 * M) * (v + q1 * M)
           + (w + q2 * M) * (w + q2 * M))
    with (u * u + v * v + w * w
          + (q0 * (2 * u + q0 * M) + q1 * (2 * v + q1 * M)
             + q2 * (2 * w + q2 * M)) * M) by ring.
  apply Z_mod_plus_full.
Qed.

Lemma sq_dist_bound (x y : kcolor) :
  kc_valid x -> kc_valid y -> 0 <= sq_dist x y <= 3 * (KC_MAX * KC_MAX).
Proof.
  unfold kc_valid, sq_dist, KC_MAX. intros (H0 & H1 & H2) (G0 & G1 & G2).
  assert (forall u, - 32767 <= u <= 32767 -> 0 <= u * u <= 32767 * 32767)
    as Hsq by (intros u Hu; nia).
  pose proof (Hsq (a_0 x - a_0 y) ltac:(lia)).
  pose proof (Hsq (a_1 x - a_1 y) ltac:(lia)).
  pose proof (Hsq (a_2 x - a_2 y) ltac:(lia)).
  lia.
Qed.

Lemma kc_distance_valid (x y : kcolor) :
  kc_valid x -> kc_valid y -> kc_distance x y = sq_dist x y.
Proof.
  intros Hx Hy. rewrite kc_distance_mod.
  pose proof (sq_dist_bound x y Hx Hy) as H. unfold KC_MAX in H.
  apply Z.mod_small. change (2 ^ 32) with 4294967296. lia.
Qed.

(** C5: for colours with all components in [0, 32767], every per-component
    difference lies in [-32767, 32767] (and is held exactly by the
    [int32_t] intermediate), every square and the sum of the three squares
    fit in an unsigned 32-bit integer, and [kc_distance] returns exactly the
    mathematical sum of the squared differences. *)
Theorem kc_distance_exact (x y : kcolor) :
  kc_valid x -> kc_valid y ->
  let d0 := a_0 x - a_0 y in
  let d1 := a_1 x - a_1 y in
  let d2 := a_2 x - a_2 y in
  (- 32767 <= d0 <= 32767 /\ - 32767 <= d1 <= 32767 /\ - 32767 <= d2 <= 32767) /\
  (to_int32 d0 = d0 /\ to_int32 d1 = d1 /\ to_int32 d2 = d2) /\
  (0 <= d0 * d0 <= UINT32_MAX /\ 0 <= d1 * d1 <= UINT32_MAX /\
   0 <= d2 * d2 <= UINT32_MAX) /\
  0 <= d0 * d0 + d1 * d1 + d2 * d2 <= UINT32_MAX /\
  kc_distance x y = d0 * d0 + d1 * d1 + d2 * d2.
Proof.
  intros Hx Hy d0 d1 d2.
  pose proof (kc_distance_valid x y Hx Hy) as Hd.
  pose proof (sq_dist_bound x y Hx Hy) as Hb.
  unfold sq_dist in Hd, Hb. fold d0 d1 d2 in Hd, Hb.
  destruct Hx as (H0 & H1 & H2), Hy as (G0 & G1 & G2).
  unfold KC_MAX, UINT32_MAX in *. change (2 ^ 32) with 4294967296.
  assert (R0 : - 32767 <= d0 <= 32767) by (subst d0; lia).
  assert (R1 : - 32767 <= d1 <= 32767) by (subst d1; lia).
  assert (R2 : - 32767 <= d2 <= 32767) by (subst d2; lia).
  assert (Hsq : forall u, - 32767 <= u <= 32767 -> 0 <= u * u <= 32767 * 32767)
    by (intros u Hu; nia).
  pose proof (Hsq d0 R0). pose proof (Hsq d1 R1). pose proof (Hsq d2 R2).
  repeat split; try lia; try (apply to_int32_small; lia).
Qed.

(** For white and black the [int] sum of the three squares passes
    [INT_MAX] and wraps; the conversion to [uint32_t] restores the sum. *)
Example kc_distance_signed_wrap :
  to_int32 (32767 * 32767 + 32767 * 32767 + 32767 * 32767) = -1073938429 /\
  to_uint32 (-1073938429) = 3221028867 /\
  kc_distance Sample.white Sample.black = 3221028867.
Proof. repeat split; vm_compute; reflexivity. Qed.

(** C8: the distance is symmetric and non-negative, and the distance of a
    colour to itself is 0, whatever the components. *)
Theorem kc_distance_symmetric (x y : kcolor) :
  kc_distance x y = kc_distance y x /\
  0 <= kc_distance x y /\
  kc_distance x x = 0.
Proof.
  split; [| split].
  - rewrite !kc_distance_mod. f_equal. unfold sq_dist. ring.
  - unfold kc_distance. cbv zeta.
    match goal with |- 0 <= to_uint32 ?e => pose proof (to_uint32_range e) end.
    lia.
  - rewrite kc_distance_mod. unfold sq_dist.
    rewrite !Z.sub_diag. reflexivity.
Qed.

(** ** Luminance *)

Lemma kc_luminance_range (x : kcolor) :
  kc_int16 x -> INT16_MIN <= kc_luminance x <= INT16_MAX.
Proof.
  unfold kc_int16, INT16_MIN, INT16_MAX, kc_luminance.
  change (2 ^ 15) with 32768. intros (H0 & H1 & H2).
  rewrite to_int32_small by (change (2 ^ 31) with 2147483648; lia).
  rewrite Z.shiftr_div_pow2 by lia. change (2 ^ 10) with 1024.
  split.
  - apply Z.div_le_lower_bound; lia.
  - apply Z.lt_succ_r. apply Z.div_lt_upper_bound; lia.
Qed.

Lemma kc_luminance_valid (x : kcolor) :
  kc_valid x -> 0 <= kc_luminance x <= KC_MAX.
Proof.
  unfold kc_valid, KC_MAX, kc_luminance. intros (H0 & H1 & H2).
  rewrite to_int32_small by (change (2 ^ 31) with 2147483648; lia).
  rewrite Z.shiftr_div_pow2 by lia. change (2 ^ 10) with 1024.
  split.
  - apply Z.div_le_lower_bound; lia.
  - apply Z.lt_succ_r. apply Z.div_lt_upper_bound; lia.
Qed.

(** The luminance of a gray colour is its gray level. *)
Lemma kc_luminance_gray (l : Z) :
  INT16_MIN <= l <= INT16_MAX -> kc_luminance (Kcolor l l l) = l.
Proof.
  unfold INT16_MIN, INT16_MAX, kc_luminance. cbn [a_0 a_1 a_2].
  change (2 ^ 15) with 32768. intros H.
  rewrite to_int32_small by (change (2 ^ 31) with 2147483648; lia).
  rewrite Z.shiftr_div_pow2 by lia. change (2 ^ 10) with 1024.
  replace (306 * l + 601 * l + 117 * l) with (l * 1024) by ring.
  apply Z.div_mul. lia.
Qed.

(** The three stores of the transform write the same [int16_t] value. *)
Lemma kc_luminance_transform_gray (x : kcolor) :
  kc_luminance_transform x =
  Kcolor (to_int16 (kc_luminance x)) (to_int16 (kc_luminance x))
         (to_int16 (kc_luminance x)).
Proof.
  unfold kc_luminance_transform, kc_store, kc_a. cbn.
  rewrite !(to_int16_small (to_int16 _)) by apply to_int16_range.
  reflexivity.
Qed.

Lemma kc_luminance_transform_int16 (x : kcolor) :
  kc_int16 x ->
  kc_luminance_transform x =
  Kcolor (kc_luminance x) (kc_luminance x) (kc_luminance x).
Proof.
  intros H. rewrite kc_luminance_transform_gray.
  rewrite to_int16_small by (apply kc_luminance_range; exact H).
  reflexivity.
Qed.

Lemma kc_valid_int16 (x : kcolor) : kc_valid x -> kc_int16 x.
Proof.
  unfold kc_valid, kc_int16, KC_MAX, INT16_MIN, INT16_MAX.
  change (2 ^ 15) with 32768. lia.
Qed.

(** C3, as the code has it: after [kc_luminance_transform] the three
    components are equal, and the distance between two collapsed colours is
    three times the squared difference of their luminance values: one
    square per component.  The factor is exact for colours collapsed from
    components in [0, 32767]; in general the product is reduced modulo
    [2^32]. *)
Theorem kc_luminance_collapse (x y : kcolor) :
  let x' := kc_luminance_transform x in
  let y' := kc_luminance_transform y in
  (a_0 x' = a_1 x' /\ a_1 x' = a_2 x') /\
  kc_distance x' y' =
    (3 * (kc_luminance x' - kc_luminance y') ^ 2) mod 2 ^ 32 /\
  (kc_valid x -> kc_valid y ->
   kc_distance x' y' = 3 * (kc_luminance x' - kc_luminance y') ^ 2).
Proof.
  intros x' y'. subst x' y'.
  rewrite (kc_luminance_transform_gray x), (kc_luminance_transform_gray y).
  set (l := to_int16 (kc_luminance x)). set (m := to_int16 (kc_luminance y)).
  assert (Hl : kc_luminance (Kcolor l l l) = l)
    by (apply kc_luminance_gray, to_int16_range).
  assert (Hm : kc_luminance (Kcolor m m m) = m)
    by (apply kc_luminance_gray, to_int16_range).
  rewrite Hl, Hm. cbn [a_0 a_1 a_2].
  assert (Hs : sq_dist (Kcolor l l l) (Kcolor m m m) = 3 * (l - m) ^ 2)
    by (unfold sq_dist; cbn [a_0 a_1 a_2]; ring).
  split; [split; reflexivity |]. split.
  - rewrite kc_distance_mod, Hs. reflexivity.
  - intros Hx Hy. rewrite <- Hs.
    pose proof (kc_luminance_valid x Hx) as Lx.
    pose proof (kc_luminance_valid y Hy) as Ly.
    assert (El : l = kc_luminance x).
    { subst l. apply to_int16_small. apply kc_luminance_range.
      apply kc_valid_int16, Hx. }
    assert (Em : m = kc_luminance y).
    { subst m. apply to_int16_small. apply kc_luminance_range.
      apply kc_valid_int16, Hy. }
    apply kc_distance_valid; unfold kc_valid; cbn [a_0 a_1 a_2]; lia.
Qed.

(** C9: for a colour with components in [0, 32767], a second
    [kc_luminance_transform] changes nothing: the first one yields the gray
    colour (L, L, L) of the luminance L, whose luminance is L. *)
Theorem kc_luminance_transform_idempotent (x : kcolor) :
  kc_valid x ->
  let l := kc_luminance x in
  kc_luminance_transform x = Kcolor l l l /\
  kc_luminance (Kcolor l l l) = l /\
  kc_luminance_transform (kc_luminance_transform x) = kc_luminance_transform x.
Proof.
  intros Hx l. subst l.
  pose proof (kc_luminance_range x (kc_valid_int16 x Hx)) as Hr.
  pose proof (kc_luminance_transform_int16 x (kc_valid_int16 x Hx)) as Ht.
  pose proof (kc_luminance_gray (kc_luminance x) Hr) as Hg.
  split; [exact Ht |]. split; [exact Hg |].
  rewrite Ht. rewrite kc_luminance_transform_int16.
  - rewrite Hg. reflexivity.
  - unfold kc_int16. cbn [a_0 a_1 a_2]. tauto.
Qed.

(** ** Disabling and enabling *)

(** The unsigned comparison of the first assertion is the range check. *)
Lemma unsigned_index_check (i n : Z) :
  - 2 ^ 31 <= i < 2 ^ 31 -> 0 <= n < 2 ^ 31 ->
  (to_uint32 i <? to_uint32 n) = ((0 <=? i) && (i <? n)).
Proof.
  change (2 ^ 31) with 2147483648. intros Hi Hn. unfold to_uint32.
  change (2 ^ 32) with 4294967296.
  rewrite (Z.mod_small n) by lia.
  destruct (Z.leb_spec 0 i) as [Hpos | Hneg]; cbn [andb].
  - rewrite (Z.mod_small i) by lia. reflexivity.
  - rewrite <- (Z_mod_plus_full i 1 4294967296).
    rewrite Z.mod_small by lia. apply Z.ltb_ge. lia.
Qed.

Lemma set_disabled_same {T : Type} (kd3 : kd3_tree T) :
  set_disabled kd3 (disabled kd3) = kd3.
Proof. destruct kd3. reflexivity. Qed.

(** C7: on a well-formed index and for an [int] [i], the assertions of
    [kd3_disable] hold exactly when [i] is a valid index and no other index
    is disabled; then the disabled slot becomes [i], otherwise the run
    aborts on an assertion; disabling the index that is already disabled
    leaves the index unchanged.  [kd3_enable_all] has no precondition and
    leaves no index disabled. *)
Theorem kd3_disable_contract {T : Type} (kd3 : kd3_tree T) (i : Z) :
  (kd3_wf kd3 -> - 2 ^ 31 <= i < 2 ^ 31 ->
   (0 <= i < nitems kd3 /\ (disabled kd3 < 0 \/ disabled kd3 = i) ->
    kd3_disable kd3 i = Done (set_disabled kd3 i) /\
    disabled (set_disabled kd3 i) = i) /\
   (~ (0 <= i < nitems kd3 /\ (disabled kd3 < 0 \/ disabled kd3 = i)) ->
    kd3_disable kd3 i = Stop AssertionFailed) /\
   (0 <= i < nitems kd3 -> disabled kd3 = i ->
    kd3_disable kd3 i = Done kd3)) /\
  (disabled (kd3_enable_all kd3) = -1 /\
   (forall j, 0 <= j -> disabled (kd3_enable_all kd3) <> j) /\
   ks (kd3_enable_all kd3) = ks kd3 /\
   nitems (kd3_enable_all kd3) = nitems kd3).
Proof.
  split.
  - intros (Hn & Hlt & Hd) Hi.
    assert (Hn0 : 0 <= nitems kd3 < 2 ^ 31) by (rewrite Hn in *; lia).
    unfold kd3_disable. rewrite (unsigned_index_check i _ Hi Hn0).
    split; [| split].
    + intros ((Hi0 & Hi1) & Hdis).
      replace (0 <=? i) with true by (symmetry; apply Z.leb_le; lia).
      replace (i <? nitems kd3) with true by (symmetry; apply Z.ltb_lt; lia).
      cbn [andb].
      replace ((disabled kd3 <? 0) || (disabled kd3 =? i)) with true.
      * split; reflexivity.
      * symmetry. apply orb_true_iff.
        destruct Hdis; [left; apply Z.ltb_lt | right; apply Z.eqb_eq]; lia.
    + intros Hnot.
      destruct (Z.leb_spec 0 i), (Z.ltb_spec i (nitems kd3)); cbn [andb];
        try reflexivity.
      destruct (Z.ltb_spec (disabled kd3) 0), (Z.eqb_spec (disabled kd3) i);
        cbn [orb]; try reflexivity; exfalso; apply Hnot; lia.
    + intros (Hi0 & Hi1) Heq.
      replace (0 <=? i) with true by (symmetry; apply Z.leb_le; lia).
      replace (i <? nitems kd3) with true by (symmetry; apply Z.ltb_lt; lia).
      cbn [andb].
      replace (disabled kd3 =? i) with true by (symmetry; apply Z.eqb_eq; lia).
      rewrite orb_true_r. rewrite <- Heq. rewrite set_disabled_same.
      reflexivity.
  - unfold kd3_enable_all. cbn. repeat split; try reflexivity.
    intros j Hj. lia.
Qed.

(** ** Gamma tables *)

Section GammaFacts.

Variable gamma_tables : list (list Z).

Lemma array_get_fault {A : Type} (arr : list A) (i : Z) (f : fault) :
  array_get arr i = Stop f -> f = OutOfBounds.
Proof.
  unfold array_get. destruct (i <? 0).
  - congruence.
  - destruct (nth_error arr (Z.to_nat i)); congruence.
Qed.

Lemma gamma_at_fault (j i : Z) (f : fault) :
  gamma_at gamma_tables j i = Stop f -> f = OutOfBounds.
Proof.
  unfold gamma_at, bind.
  destruct (array_get gamma_tables j) eqn:E.
  - apply array_get_fault.
  - intros H. injection H as <-. eapply array_get_fault, E.
Qed.

Lemma gamma_at_neg (j i : Z) :
  i < 0 -> gamma_at gamma_tables j i = Stop OutOfBounds.
Proof.
  intros Hi. unfold gamma_at, bind.
  destruct (array_get gamma_tables j) eqn:E.
  - unfold array_get. apply Z.ltb_lt in Hi. rewrite Hi. reflexivity.
  - f_equal. eapply array_get_fault, E.
Qed.

Lemma gamma_at_done_nonneg (j i g : Z) :
  gamma_at gamma_tables j i = Done g -> 0 <= i.
Proof.
  intros H. destruct (Z.lt_ge_cases i 0) as [Hneg | Hpos]; [| exact Hpos].
  rewrite gamma_at_neg in H by exact Hneg. discriminate.
Qed.

Lemma table_ok_get (t : list Z) (i : Z) :
  table_okb t = true -> 0 <= i < 256 ->
  exists g, array_get t i = Done g /\ 0 <= g <= KC_MAX.
Proof.
  unfold table_okb. intros H Hi. apply andb_true_iff in H as [Hlen Hall].
  apply Nat.eqb_eq in Hlen. unfold array_get.
  replace (i <? 0) with false by (symmetry; apply Z.ltb_ge; lia).
  destruct (nth_error t (Z.to_nat i)) as [g |] eqn:E.
  - exists g. split; [reflexivity |].
    rewrite forallb_forall in Hall.
    specialize (Hall g (nth_error_In _ _ E)).
    apply andb_true_iff in Hall as [H0 H1].
    apply Z.leb_le in H0, H1. lia.
  - apply nth_error_None in E. lia.
Qed.

Lemma gamma_at_ok (j i : Z) :
  gamma_tables_okb gamma_tables = true -> j = 0 \/ j = 1 -> 0 <= i < 256 ->
  exists g, gamma_at gamma_tables j i = Done g /\ 0 <= g <= KC_MAX.
Proof.
  unfold gamma_tables_okb. intros H Hj Hi.
  destruct gamma_tables as [| f [| r [| ? ?]]]; try discriminate.
  apply andb_true_iff in H as [Hf Hr].
  unfold gamma_at.
  destruct Hj as [-> | ->]; cbn; apply table_ok_get; assumption.
Qed.

Lemma gamma_at_range (j i g : Z) :
  gamma_tables_okb gamma_tables = true -> j = 0 \/ j = 1 ->
  gamma_at gamma_tables j i = Done g -> 0 <= i < 256 /\ 0 <= g <= KC_MAX.
Proof.
  unfold gamma_tables_okb. intros H Hj Hg.
  pose proof (gamma_at_done_nonneg _ _ _ Hg) as Hi.
  destruct gamma_tables as [| f [| r [| ? ?]]]; try discriminate.
  apply andb_true_iff in H as [Hf Hr].
  assert (Hin : forall t, table_okb t = true -> array_get t i = Done g ->
                          0 <= i < 256 /\ 0 <= g <= KC_MAX).
  { intros t Ht Hget.
    assert (Hlt : i < 256).
    { unfold array_get in Hget.
      replace (i <? 0) with false in Hget by (symmetry; apply Z.ltb_ge; lia).
      destruct (nth_error t (Z.to_nat i)) eqn:E; [| discriminate].
      assert (Hn : (Z.to_nat i < length t)%nat)
        by (apply nth_error_Some; congruence).
      unfold table_okb in Ht. apply andb_true_iff in Ht as [Hlen _].
      apply Nat.eqb_eq in Hlen. lia. }
    destruct (table_ok_get t i Ht ltac:(lia)) as (g' & Hg' & Hr').
    rewrite Hget in Hg'. injection Hg' as <-. lia. }
  unfold gamma_at in Hg.
  destruct Hj as [-> | ->].
  - change (array_get [f; r] 0) with (Done f) in Hg. exact (Hin f Hf Hg).
  - change (array_get [f; r] 1) with (Done r) in Hg. exact (Hin r Hr Hg).
Qed.

End GammaFacts.

(** ** The probing loop of the reverse gamma transform *)

Section Probe.

Variable gamma_tables : list (list Z).

Lemma revgamma_probe_unfold (fuel : nat) (xd c : Z) :
  revgamma_probe gamma_tables (S fuel) xd c =
  if c <? 0x7F80 then
    bind (gamma_at gamma_tables 0 (Z.shiftr (c + 0x80) 7))
         (fun g => if xd >=? g
                   then revgamma_probe gamma_tables fuel xd (c + 0x80)
                   else Done c)
  else Done c.
Proof. reflexivity. Qed.

(** A finished run made [n] iterations: every one of them started below
    the bound [0x7F80] with a next candidate whose forward value does not
    exceed [xd] and added [0x80]; the run stopped at the bound or at a
    next candidate whose forward value exceeds [xd]. *)
Lemma revgamma_probe_run (fuel : nat) (xd : Z) :
  forall c r,
    revgamma_probe gamma_tables fuel xd c = Done r ->
    exists n : nat,
      (n < fuel)%nat /\
      r = c + 0x80 * Z.of_nat n /\
      (forall j : nat, (j < n)%nat ->
         c + 0x80 * Z.of_nat j < 0x7F80 /\
         forward_le gamma_tables (c + 0x80 * Z.of_nat (S j)) xd) /\
      (0x7F80 <= r \/ forward_gt gamma_tables (r + 0x80) xd).
Proof.
  induction fuel as [| fuel IH]; intros c r Hrun.
  - discriminate.
  - rewrite revgamma_probe_unfold in Hrun.
    destruct (Z.ltb_spec c 0x7F80) as [Hlt | Hge].
    + unfold bind in Hrun.
      destruct (gamma_at gamma_tables 0 (Z.shiftr (c + 0x80) 7)) as [g | f] eqn:Hg;
        [| discriminate].
      destruct (xd >=? g) eqn:Hcmp.
      * destruct (IH _ _ Hrun) as (n & Hn & Hr & Hsteps & Hstop).
        exists (S n). split; [lia |]. split; [lia |]. split; [| exact Hstop].
        intros [| j] Hj.
        -- split; [lia |]. exists g.
           replace (c + 0x80 * Z.of_nat 1) with (c + 0x80) by lia.
           split; [exact Hg |]. apply Z.geb_le in Hcmp. lia.
        -- destruct (Hsteps j ltac:(lia)) as [Hb Hf].
           replace (c + 0x80 * Z.of_nat (S j))
             with (c + 0x80 + 0x80 * Z.of_nat j) by lia.
           replace (c + 0x80 * Z.of_nat (S (S j)))
             with (c + 0x80 + 0x80 * Z.of_nat (S j)) by lia.
           split; assumption.
      * injection Hrun as <-. exists 0%nat.
        split; [lia |]. split; [lia |]. split; [intros j Hj; lia |].
        right. exists g. split; [exact Hg |].
        destruct (Z.geb_spec xd g); [discriminate | lia].
    + injection Hrun as <-. exists 0%nat.
      split; [lia |]. split; [lia |]. split; [intros j Hj; lia |].
      left. lia.
Qed.

(** The iterations are bounded whatever the tables hold: a read below the
    table faults, and the guard stops the run at [0x7F80]. *)
Lemma revgamma_probe_bound (xd c : Z) (n : nat) :
  (forall j : nat, (j < n)%nat ->
     c + 0x80 * Z.of_nat j < 0x7F80 /\
     forward_le gamma_tables (c + 0x80 * Z.of_nat (S j)) xd) ->
  (n <= 256)%nat /\ (0 <= c -> (n <= 255)%nat).
Proof.
  intros Hsteps. destruct n as [| n]; [lia |].
  destruct (Hsteps 0%nat ltac:(lia)) as [_ (g & Hg & _)].
  apply gamma_at_done_nonneg in Hg.
  rewrite Z.shiftr_nonneg in Hg.
  destruct (Hsteps n ltac:(lia)) as [Hb _].
  lia.
Qed.

(** Enough fuel: the run never stops for lack of it. *)
Lemma revgamma_probe_enough (fuel : nat) (xd : Z) :
  forall c,
    c < - 0x80 \/ 0x7F80 - c <= 0x80 * Z.of_nat fuel ->
    revgamma_probe gamma_tables (S fuel) xd c <> Stop OutOfFuel.
Proof.
  induction fuel as [| fuel IH]; intros c Hc;
    rewrite revgamma_probe_unfold;
    destruct (Z.ltb_spec c 0x7F80) as [Hlt | Hge]; try discriminate;
    unfold bind;
    destruct (gamma_at gamma_tables 0 (Z.shiftr (c + 0x80) 7)) as [g | f] eqn:Hg.
  - apply gamma_at_done_nonneg in Hg. rewrite Z.shiftr_nonneg in Hg. lia.
  - apply gamma_at_fault in Hg. subst f. discriminate.
  - destruct (xd >=? g); [| discriminate].
    apply IH. apply gamma_at_done_nonneg in Hg.
    rewrite Z.shiftr_nonneg in Hg. lia.
  - apply gamma_at_fault in Hg. subst f. discriminate.
Qed.

Lemma revgamma_probe_terminates (fuel : nat) (xd c : Z) :
  (revgamma_fuel <= fuel)%nat ->
  revgamma_probe gamma_tables fuel xd c <> Stop OutOfFuel.
Proof.
  unfold revgamma_fuel. intros Hf.
  destruct fuel as [| fuel]; [lia |].
  apply revgamma_probe_enough. lia.
Qed.

(** More fuel does not change a run that did not lack fuel. *)
Lemma revgamma_probe_more_fuel (fuel : nat) (xd : Z) :
  forall fuel' c,
    (fuel <= fuel')%nat ->
    revgamma_probe gamma_tables fuel xd c <> Stop OutOfFuel ->
    revgamma_probe gamma_tables fuel' xd c =
    revgamma_probe gamma_tables fuel xd c.
Proof.
  induction fuel as [| fuel IH]; intros fuel' c Hle Hrun.
  - exfalso. apply Hrun. reflexivity.
  - destruct fuel' as [| fuel']; [lia |].
    rewrite !revgamma_probe_unfold in *.
    destruct (c <? 0x7F80); [| reflexivity].
    unfold bind in *.
    destruct (gamma_at gamma_tables 0 (Z.shiftr (c + 0x80) 7)); [| reflexivity].
    destruct (xd >=? v); [| reflexivity].
    apply IH; [lia | exact Hrun].
Qed.

Lemma revgamma_probe_stable (fuel : nat) (xd c : Z) :
  (revgamma_fuel <= fuel)%nat ->
  revgamma_probe gamma_tables fuel xd c =
  revgamma_probe gamma_tables revgamma_fuel xd c.
Proof.
  intros Hf. apply revgamma_probe_more_fuel; [exact Hf |].
  apply revgamma_probe_terminates. lia.
Qed.

Lemma revgamma_component_stable (fuel : nat) (x : kcolor) (d : Z) :
  (revgamma_fuel <= fuel)%nat ->
  revgamma_component gamma_tables fuel x d =
  revgamma_component gamma_tables revgamma_fuel x d.
Proof.
  intros Hf. unfold revgamma_component, bind.
  destruct (gamma_at gamma_tables 1 (Z.shiftr (kc_a x d) 7)); [| reflexivity].
  rewrite (revgamma_probe_stable fuel) by exact Hf. reflexivity.
Qed.

Lemma revgamma_component_terminates (fuel : nat) (x : kcolor) (d : Z) :
  (revgamma_fuel <= fuel)%nat ->
  revgamma_component gamma_tables fuel x d <> Stop OutOfFuel.
Proof.
  intros Hf. unfold revgamma_component, bind.
  destruct (gamma_at gamma_tables 1 (Z.shiftr (kc_a x d) 7)) as [c0 | f] eqn:Hc0.
  - pose proof (revgamma_probe_terminates fuel (kc_a x d) c0 Hf) as Hp.
    destruct (revgamma_probe gamma_tables fuel (kc_a x d) c0);
      [discriminate | congruence].
  - apply gamma_at_fault in Hc0. subst f. discriminate.
Qed.

(** C10: [kc_revgamma_transform] terminates for every colour and every
    content of the gamma tables.  With a budget of [revgamma_fuel] guard
    evaluations or more per loop the run never lacks fuel, and its result
    does not depend on the budget; and a probing loop that finishes made
    [n] iterations, each started at a candidate below the guard's bound
    [0x7F80] and adding [0x80], with [n <= 256] (and [n <= 255] from a
    start [c >= 0], as every [uint16_t] estimate is). *)
Theorem kc_revgamma_transform_terminates (x : kcolor) :
  (forall fuel : nat,
     (revgamma_fuel <= fuel)%nat ->
     kc_revgamma_transform_fuel gamma_tables fuel x <> Stop OutOfFuel /\
     kc_revgamma_transform_fuel gamma_tables fuel x =
     kc_revgamma_transform gamma_tables x) /\
  (forall (fuel : nat) (xd c r : Z),
     revgamma_probe gamma_tables fuel xd c = Done r ->
     exists n : nat,
       r = c + 0x80 * Z.of_nat n /\
       (forall j : nat, (j < n)%nat ->
          c + 0x80 * Z.of_nat j < c + 0x80 * Z.of_nat (S j) /\
          c + 0x80 * Z.of_nat j < 0x7F80) /\
       (n <= 256)%nat /\ (0 <= c -> (n <= 255)%nat)).
Proof.
  split.
  - intros fuel Hf. split.
    + unfold kc_revgamma_transform_fuel, bind.
      pose proof (revgamma_component_terminates fuel x 0 Hf) as H0.
      destruct (revgamma_component gamma_tables fuel x 0) as [x0 | f0];
        [| congruence].
      pose proof (revgamma_component_terminates fuel x0 1 Hf) as H1.
      destruct (revgamma_component gamma_tables fuel x0 1) as [x1 | f1];
        [| congruence].
      apply revgamma_component_terminates, Hf.
    + unfold kc_revgamma_transform, kc_revgamma_transform_fuel, bind.
      rewrite (revgamma_component_stable fuel x 0 Hf).
      destruct (revgamma_component gamma_tables revgamma_fuel x 0) as [x0 | f0];
        [| reflexivity].
      rewrite (revgamma_component_stable fuel x0 1 Hf).
      destruct (revgamma_component gamma_tables revgamma_fuel x0 1) as [x1 | f1];
        [| reflexivity].
      apply revgamma_component_stable, Hf.
  - intros fuel xd c r Hrun.
    destruct (revgamma_probe_run fuel xd c r Hrun) as (n & _ & Hr & Hsteps & _).
    exists n. split; [exact Hr |]. split.
    + intros j Hj. destruct (Hsteps j Hj) as [Hb _]. lia.
    + exact (revgamma_probe_bound xd c n Hsteps).
Qed.

End Probe.

(** ** The result of the reverse gamma transform *)

Lemma kc_a_store_same (x : kcolor) (d v : Z) :
  0 <= d < 3 -> kc_a (kc_store x d v) d = to_int16 v.
Proof.
  intros Hd. assert (d = 0 \/ d = 1 \/ d = 2) as [-> | [-> | ->]] by lia;
    reflexivity.
Qed.

Lemma shiftr7_index (c : Z) : 0 <= c <= KC_MAX -> 0 <= Z.shiftr c 7 < 256.
Proof.
  unfold KC_MAX. intros Hc. rewrite Z.shiftr_div_pow2 by lia.
  change (2 ^ 7) with 128. split.
  - apply Z.div_pos; lia.
  - apply Z.div_lt_upper_bound; lia.
Qed.

Section Revgamma.

Variable gamma_tables : list (list Z).
Hypothesis tables_ok : gamma_tables_okb gamma_tables = true.

(** With well-formed tables a run from a 15-bit candidate finishes at a
    15-bit candidate. *)
Lemma revgamma_probe_done (fuel : nat) (xd : Z) :
  forall c,
    0 <= c <= KC_MAX -> 0x7F80 - c <= 0x80 * Z.of_nat fuel ->
    exists r, revgamma_probe gamma_tables (S fuel) xd c = Done r /\
              0 <= r <= KC_MAX.
Proof.
  induction fuel as [| fuel IH]; intros c Hc Hfuel;
    rewrite revgamma_probe_unfold;
    destruct (Z.ltb_spec c 0x7F80) as [Hlt | Hge];
    try (exists c; split; [reflexivity | exact Hc]).
  - lia.
  - destruct (gamma_at_ok gamma_tables 0 (Z.shiftr (c + 0x80) 7) tables_ok)
      as (g & Hg & _); [left; reflexivity | apply shiftr7_index; unfold KC_MAX in *; lia |].
    rewrite Hg. unfold bind.
    destruct (xd >=? g).
    + apply IH; unfold KC_MAX in *; lia.
    + exists c. split; [reflexivity | exact Hc].
Qed.

Lemma revgamma_component_spec (x : kcolor) (d : Z) :
  0 <= d < 3 -> 0 <= kc_a x d <= KC_MAX ->
  exists c0 r,
    gamma_at gamma_tables 1 (Z.shiftr (kc_a x d) 7) = Done c0 /\
    revgamma_component gamma_tables revgamma_fuel x d = Done (kc_store x d r) /\
    0 <= r <= KC_MAX /\
    probed_from gamma_tables (kc_a x d) c0 r.
Proof.
  intros Hd Hx.
  destruct (gamma_at_ok gamma_tables 1 (Z.shiftr (kc_a x d) 7) tables_ok)
    as (c0 & Hc0 & Hr0); [right; reflexivity | apply shiftr7_index, Hx |].
  destruct (revgamma_probe_done 256 (kc_a x d) c0 Hr0) as (r & Hrun & Hr).
  { unfold KC_MAX in *. lia. }
  exists c0, r. split; [exact Hc0 |]. split.
  - unfold revgamma_component, revgamma_fuel, bind. rewrite Hc0, Hrun.
    reflexivity.
  - split; [exact Hr |].
    destruct (revgamma_probe_run gamma_tables _ _ _ _ Hrun)
      as (n & _ & Hn & Hsteps & Hstop).
    exists n. auto.
Qed.

(** Over a non-decreasing forward table and from an estimate whose own
    forward value does not exceed [xd], the probed value is the largest
    candidate. *)
Lemma probed_largest (xd c0 r : Z) :
  0 <= r <= KC_MAX ->
  probed_from gamma_tables xd c0 r ->
  forward_monotone gamma_tables ->
  forward_le gamma_tables c0 xd ->
  largest_not_exceeding gamma_tables xd c0 r.
Proof.
  intros Hr (n & Hn & Hsteps & Hstop) Hmono Hest.
  split; [exists n; exact Hn |]. split; [exact Hr |]. split.
  - destruct n as [| m].
    + replace r with c0 by lia. exact Hest.
    + rewrite Hn. apply (Hsteps m). lia.
  - intros k Hk (g2 & Hg2 & Hle).
    destruct (Z.le_gt_cases (c0 + 0x80 * Z.of_nat k) r) as [Hok | Hbig];
      [exact Hok | exfalso].
    assert (Hnext : r + 0x80 <= c0 + 0x80 * Z.of_nat k) by lia.
    destruct Hstop as [Hbound | (g1 & Hg1 & Hgt)].
    + unfold KC_MAX in *. lia.
    + assert (Hidx : Z.shiftr (r + 0x80) 7 <= Z.shiftr (c0 + 0x80 * Z.of_nat k) 7).
      { rewrite !Z.shiftr_div_pow2 by lia. apply Z.div_le_mono; lia. }
      pose proof (Hmono _ _ _ _ Hidx Hg1 Hg2). lia.
Qed.

(** C4, as the code has it: for a colour with components in [0, 32767] and
    tables of 256 15-bit entries, [kc_revgamma_transform] sets every
    component [d] to the value probed from the reverse-table estimate
    [gamma_tables[1][x.a[d] >> 7]]: the estimate plus 128 for every
    consecutive next candidate whose forward-gamma equivalent does not
    exceed [x.a[d]], up to the bound [0x7F80].  When the forward table
    never decreases and the estimate's own forward-gamma equivalent does
    not exceed [x.a[d]], that value is the largest 15-bit candidate whose
    forward-gamma equivalent does not exceed [x.a[d]]. *)
Theorem kc_revgamma_transform_probes (x : kcolor) :
  kc_valid x ->
  exists x',
    kc_revgamma_transform gamma_tables x = Done x' /\
    kc_valid x' /\
    forall d, 0 <= d < 3 ->
      exists c0,
        gamma_at gamma_tables 1 (Z.shiftr (kc_a x d) 7) = Done c0 /\
        probed_from gamma_tables (kc_a x d) c0 (kc_a x' d) /\
        (forward_monotone gamma_tables ->
         forward_le gamma_tables c0 (kc_a x d) ->
         largest_not_exceeding gamma_tables (kc_a x d) c0 (kc_a x' d)).
Proof.
  intros (H0 & H1 & H2).
  destruct (revgamma_component_spec x 0 ltac:(lia) H0)
    as (e0 & r0 & He0 & Hc0 & Hr0 & Hp0).
  destruct (revgamma_component_spec (kc_store x 0 r0) 1 ltac:(lia) H1)
    as (e1 & r1 & He1 & Hc1 & Hr1 & Hp1).
  destruct (revgamma_component_spec (kc_store (kc_store x 0 r0) 1 r1) 2
              ltac:(lia) H2)
    as (e2 & r2 & He2 & Hc2 & Hr2 & Hp2).
  assert (Hi : forall r, 0 <= r <= KC_MAX -> to_int16 r = r).
  { intros r Hr. apply to_int16_small.
    unfold KC_MAX, INT16_MIN, INT16_MAX in *. change (2 ^ 15) with 32768. lia. }
  exists (kc_store (kc_store (kc_store x 0 r0) 1 r1) 2 r2).
  split; [| split].
  - unfold kc_revgamma_transform, kc_revgamma_transform_fuel, bind.
    rewrite Hc0, Hc1, Hc2. reflexivity.
  - unfold kc_valid, kc_store. cbn.
    rewrite (Hi r0 Hr0), (Hi r1 Hr1), (Hi r2 Hr2). auto.
  - intros d Hd.
    assert (d = 0 \/ d = 1 \/ d = 2) as [-> | [-> | ->]] by lia.
    + exists e0. change (kc_a (kc_store (kc_store (kc_store x 0 r0) 1 r1) 2 r2) 0)
        with (to_int16 r0). rewrite (Hi r0 Hr0).
      split; [exact He0 |]. split; [exact Hp0 |].
      intros Hm Hest. apply probed_largest; assumption.
    + exists e1. change (kc_a (kc_store (kc_store (kc_store x 0 r0) 1 r1) 2 r2) 1)
        with (to_int16 r1). rewrite (Hi r1 Hr1).
      split; [exact He1 |]. split; [exact Hp1 |].
      intros Hm Hest. apply probed_largest; assumption.
    + exists e2. change (kc_a (kc_store (kc_store (kc_store x 0 r0) 1 r1) 2 r2) 2)
        with (to_int16 r2). rewrite (Hi r2 Hr2).
      split; [exact He2 |]. split; [exact Hp2 |].
      intros Hm Hest. apply probed_largest; assumption.
Qed.

End Revgamma.

(** ** Raw channel values *)

Section RawChannels.

Variable gamma_tables : list (list Z).
Hypothesis tables_ok : gamma_tables_okb gamma_tables = true.

Lemma gamma_at_outside (j i : Z) :
  j = 0 \/ j = 1 -> ~ 0 <= i <= 255 ->
  gamma_at gamma_tables j i = Stop OutOfBounds.
Proof.
  intros Hj Hi.
  destruct (gamma_at gamma_tables j i) as [g | f] eqn:E.
  - destruct (gamma_at_range gamma_tables j i g tables_ok Hj E). lia.
  - f_equal. eapply gamma_at_fault, E.
Qed.

Lemma kc_set8g_inside (x : kcolor) (a0 a1 a2 : Z) :
  0 <= a0 <= 255 -> 0 <= a1 <= 255 -> 0 <= a2 <= 255 ->
  exists g0 g1 g2,
    gamma_at gamma_tables 0 a0 = Done g0 /\
    gamma_at gamma_tables 0 a1 = Done g1 /\
    gamma_at gamma_tables 0 a2 = Done g2 /\
    kc_set8g gamma_tables x a0 a1 a2 = Done (Kcolor g0 g1 g2) /\
    kc_valid (Kcolor g0 g1 g2).
Proof.
  intros H0 H1 H2.
  destruct (gamma_at_ok gamma_tables 0 a0 tables_ok) as (g0 & E0 & R0);
    [left; reflexivity | lia |].
  destruct (gamma_at_ok gamma_tables 0 a1 tables_ok) as (g1 & E1 & R1);
    [left; reflexivity | lia |].
  destruct (gamma_at_ok gamma_tables 0 a2 tables_ok) as (g2 & E2 & R2);
    [left; reflexivity | lia |].
  exists g0, g1, g2. repeat (split; [assumption |]).
  assert (Hi : forall r, 0 <= r <= KC_MAX -> to_int16 r = r).
  { intros r Hr. apply to_int16_small.
    unfold KC_MAX, INT16_MIN, INT16_MAX in *. change (2 ^ 15) with 32768. lia. }
  split.
  - unfold kc_set8g, bind. rewrite E0, E1, E2. unfold kc_store. cbn.
    rewrite (Hi g0 R0), (Hi g1 R1), (Hi g2 R2). reflexivity.
  - unfold kc_valid. cbn. auto.
Qed.

Lemma kc_set8g_outside (x : kcolor) (a0 a1 a2 : Z) :
  ~ (0 <= a0 <= 255 /\ 0 <= a1 <= 255 /\ 0 <= a2 <= 255) ->
  kc_set8g gamma_tables x a0 a1 a2 = Stop OutOfBounds.
Proof.
  intros Hout. unfold kc_set8g, bind.
  destruct (gamma_at gamma_tables 0 a0) as [g0 | f0] eqn:E0;
    [| f_equal; eapply gamma_at_fault, E0].
  destruct (gamma_at gamma_tables 0 a1) as [g1 | f1] eqn:E1;
    [| f_equal; eapply gamma_at_fault, E1].
  destruct (gamma_at gamma_tables 0 a2) as [g2 | f2] eqn:E2;
    [| f_equal; eapply gamma_at_fault, E2].
  exfalso. apply Hout.
  destruct (gamma_at_range gamma_tables 0 a0 g0 tables_ok (or_introl eq_refl) E0).
  destruct (gamma_at_range gamma_tables 0 a1 g1 tables_ok (or_introl eq_refl) E1).
  destruct (gamma_at_range gamma_tables 0 a2 g2 tables_ok (or_introl eq_refl) E2).
  lia.
Qed.

(** C6, as the code has it: [kc_set8g] reads the forward table at each
    channel value as given and clamps nothing.  For channel values in
    [0, 255] (and tables of 256 15-bit entries) it does not fault and the
    colour is the three table entries; a channel value outside [0, 255] is
    a read outside the table.  For channel values in [0, 255], [kd3_add8g]
    does not fault and inserts that colour, transformed, and
    [kd3_closest8g] on a built index does not fault and returns the answer
    of [kd3_closest_transformed] for that colour, transformed.
    [KC_CLAMPV] clamps a component into [0, KC_MAX] and changes no value
    of that range. *)
Theorem raw_channels_unclamped {T : Type} (kd3 : kd3_tree T) (x : kcolor)
        (a0 a1 a2 : Z) :
  (0 <= a0 <= 255 -> 0 <= a1 <= 255 -> 0 <= a2 <= 255 ->
   exists g0 g1 g2,
     gamma_at gamma_tables 0 a0 = Done g0 /\
     gamma_at gamma_tables 0 a1 = Done g1 /\
     gamma_at gamma_tables 0 a2 = Done g2 /\
     kc_set8g gamma_tables x a0 a1 a2 = Done (Kcolor g0 g1 g2) /\
     kc_valid (Kcolor g0 g1 g2) /\
     kd3_add8g gamma_tables kd3 a0 a1 a2 =
       Done (kd3_add_transformed kd3 (apply_transform kd3 (Kcolor g0 g1 g2))) /\
     (kd3_built kd3 ->
      exists r,
        kd3_closest8g gamma_tables kd3 a0 a1 a2 = Done r /\
        kd3_closest_transformed kd3 (apply_transform kd3 (Kcolor g0 g1 g2))
          = Done r)) /\
  (~ (0 <= a0 <= 255 /\ 0 <= a1 <= 255 /\ 0 <= a2 <= 255) ->
   kc_set8g gamma_tables x a0 a1 a2 = Stop OutOfBounds) /\
  (forall v, 0 <= KC_CLAMPV v <= KC_MAX /\
             (0 <= v <= KC_MAX -> KC_CLAMPV v = v)).
Proof.
  split; [| split].
  - intros H0 H1 H2.
    destruct (kc_set8g_inside x a0 a1 a2 H0 H1 H2)
      as (g0 & g1 & g2 & E0 & E1 & E2 & Hset & Hval).
    destruct (kc_set8g_inside (Kcolor 0 0 0) a0 a1 a2 H0 H1 H2)
      as (h0 & h1 & h2 & F0 & F1 & F2 & Hset0 & _).
    assert (h0 = g0) by congruence. assert (h1 = g1) by congruence.
    assert (h2 = g2) by congruence. subst h0 h1 h2.
    exists g0, g1, g2. repeat (split; [assumption |]).
    unfold kd3_add8g, kd3_closest8g, bind. rewrite Hset0.
    split; [reflexivity |].
    intros (Htree & _). unfold kd3_closest_transformed.
    destruct (tree kd3); [| contradiction].
    destruct (closest_scan (disabled kd3)
                (apply_transform kd3 (Kcolor g0 g1 g2)) 0 (ks kd3) None)
      as [[r d] |].
    + exists r. split; reflexivity.
    + exists (-1). split; reflexivity.
  - intros Hout. apply kc_set8g_outside, Hout.
  - intros v. unfold KC_CLAMPV, KC_MAX.
    destruct (Z.ltb_spec v 0); [lia |].
    destruct (Z.ltb_spec v 32767); lia.
Qed.

End RawChannels.

(** ** Array reads on a growing prefix *)

Lemma array_get_range {A : Type} (l : list A) (j : Z) (v : A) :
  array_get l j = Done v -> 0 <= j < Z.of_nat (length l).
Proof.
  unfold array_get. destruct (Z.ltb_spec j 0); [discriminate |].
  destruct (nth_error l (Z.to_nat j)) eqn:E; [| discriminate].
  intros _. assert ((Z.to_nat j < length l)%nat)
    by (apply nth_error_Some; congruence).
  lia.
Qed.

Lemma array_get_in_range {A : Type} (l : list A) (j : Z) :
  0 <= j < Z.of_nat (length l) -> exists v, array_get l j = Done v.
Proof.
  intros Hj. unfold array_get.
  replace (j <? 0) with false by (symmetry; apply Z.ltb_ge; lia).
  destruct (nth_error l (Z.to_nat j)) as [v |] eqn:E.
  - exists v. reflexivity.
  - apply nth_error_None in E. lia.
Qed.

Lemma array_get_snoc {A : Type} (l : list A) (x : A) (j : Z) (v : A) :
  array_get (l ++ [x]) j = Done v ->
  array_get l j = Done v \/ (j = Z.of_nat (length l) /\ v = x).
Proof.
  intros H. pose proof (array_get_range _ _ _ H) as Hr.
  rewrite length_app in Hr. cbn [length] in Hr.
  unfold array_get in *.
  replace (j <? 0) with false in * by (symmetry; apply Z.ltb_ge; lia).
  destruct (Z.lt_ge_cases j (Z.of_nat (length l))) as [Hlt | Hge].
  - left. rewrite nth_error_app1 in H by lia. exact H.
  - right. assert (Hj : j = Z.of_nat (length l)) by lia.
    split; [exact Hj |]. subst j. rewrite Nat2Z.id in H.
    rewrite nth_error_app2 in H by lia. rewrite Nat.sub_diag in H.
    cbn in H. congruence.
Qed.

Lemma array_get_snoc_old {A : Type} (l : list A) (x : A) (j : Z) (v : A) :
  array_get l j = Done v -> array_get (l ++ [x]) j = Done v.
Proof.
  intros H. pose proof (array_get_range _ _ _ H) as Hr.
  unfold array_get in *.
  replace (j <? 0) with false in * by (symmetry; apply Z.ltb_ge; lia).
  rewrite nth_error_app1 by lia. exact H.
Qed.

Lemma array_get_snoc_new {A : Type} (l : list A) (x : A) :
  array_get (l ++ [x]) (Z.of_nat (length l)) = Done x.
Proof.
  unfold array_get.
  replace (Z.of_nat (length l) <? 0) with false by (symmetry; apply Z.ltb_ge; lia).
  rewrite Nat2Z.id, nth_error_app2 by lia. rewrite Nat.sub_diag. reflexivity.
Qed.

(** ** The exhaustive scan *)

Lemma closest_scan_inv (dis : Z) (k : kcolor) :
  forall l seen acc,
    scan_inv dis k seen acc ->
    scan_inv dis k (seen ++ l)
             (closest_scan dis k (Z.of_nat (length seen)) l acc).
Proof.
  induction l as [| p l IH]; intros seen acc Hinv.
  - rewrite app_nil_r. exact Hinv.
  - cbn [closest_scan].
    replace (seen ++ p :: l) with ((seen ++ [p]) ++ l)
      by (rewrite <- app_assoc; reflexivity).
    replace (Z.of_nat (length seen) + 1) with (Z.of_nat (length (seen ++ [p])))
      by (rewrite length_app; cbn [length]; lia).
    apply IH. set (j0 := Z.of_nat (length seen)).
    destruct (Z.eqb_spec j0 dis) as [Hdis | Hen].
    + (* the disabled index is skipped *)
      destruct acc as [[r d] |]; cbn [scan_inv] in *.
      * destruct Hinv as (Hr & (pr & Hpr & Hd) & Hmin).
        split; [exact Hr |]. split.
        -- exists pr. split; [apply array_get_snoc_old, Hpr | exact Hd].
        -- intros j q Hq Hj. apply array_get_snoc in Hq as [Hq | [Hq _]].
           ++ exact (Hmin j q Hq Hj).
           ++ subst j. contradiction.
      * intros j q Hq. apply array_get_snoc in Hq as [Hq | [Hq _]].
        -- exact (Hinv j q Hq).
        -- subst j. exact Hdis.
    + destruct acc as [[r d] |]; cbn [scan_inv] in *.
      * destruct Hinv as (Hr & (pr & Hpr & Hd) & Hmin).
        pose proof (array_get_range _ _ _ Hpr) as Hrange.
        destruct (Z.ltb_spec (kc_distance p k) d) as [Hlt | Hge];
          cbn [scan_inv].
        -- (* strictly closer: the new index becomes the best one *)
           split; [exact Hen |]. split.
           ++ exists p. split; [apply array_get_snoc_new | reflexivity].
           ++ intros j q Hq Hj. apply array_get_snoc in Hq as [Hq | [Hq ->]].
              ** destruct (Hmin j q Hq Hj) as [Hle _]. lia.
              ** subst j. fold j0. lia.
        -- split; [exact Hr |]. split.
           ++ exists pr. split; [apply array_get_snoc_old, Hpr | exact Hd].
           ++ intros j q Hq Hj. apply array_get_snoc in Hq as [Hq | [Hq ->]].
              ** exact (Hmin j q Hq Hj).
              ** subst j. fold j0. split; [lia |]. unfold j0. lia.
      * split; [exact Hen |]. split.
        -- exists p. split; [apply array_get_snoc_new | reflexivity].
        -- intros j q Hq Hj. apply array_get_snoc in Hq as [Hq | [Hq ->]].
           ++ specialize (Hinv j q Hq). contradiction.
           ++ subst j. fold j0. lia.
Qed.

Lemma closest_scan_spec (dis : Z) (k : kcolor) (l : list kcolor) :
  scan_inv dis k l (closest_scan dis k 0 l None).
Proof.
  apply (closest_scan_inv dis k l [] None).
  cbn. intros j p H. unfold array_get in H.
  destruct (j <? 0); [discriminate |].
  destruct (Z.to_nat j); discriminate.
Qed.

(** A query on a built index returns an index that answers it. *)
Lemma kd3_closest_transformed_spec {T : Type} (kd3 : kd3_tree T) (k : kcolor) :
  tree kd3 <> None ->
  exists r,
    kd3_closest_transformed kd3 k = Done r /\
    ((r = -1 /\ closest_scan (disabled kd3) k 0 (ks kd3) None = None) \/
     exists d, closest_scan (disabled kd3) k 0 (ks kd3) None = Some (r, d)).
Proof.
  intros Hb. unfold kd3_closest_transformed.
  destruct (tree kd3); [| contradiction].
  destruct (closest_scan (disabled kd3) k 0 (ks kd3) None) as [[r d] |].
  - exists r. split; [reflexivity |]. right. exists d. reflexivity.
  - exists (-1). split; [reflexivity |]. left. split; reflexivity.
Qed.

Lemma kd3_closest_nearest_enabled {T : Type} (kd3 : kd3_tree T) (k : kcolor) :
  tree kd3 <> None ->
  disabled kd3 <> -1 ->
  exists r,
    kd3_closest_transformed kd3 k = Done r /\
    nearest_enabled (ks kd3) (disabled kd3) k r.
Proof.
  intros Hb Hdis.
  destruct (kd3_closest_transformed_spec kd3 k Hb) as (r & Hr & Hscan).
  exists r. split; [exact Hr |].
  pose proof (closest_scan_spec (disabled kd3) k (ks kd3)) as Hinv.
  destruct Hscan as [[-> Hnone] | [d Hsome]].
  - rewrite Hnone in Hinv. cbn in Hinv. split; [lia |].
    intros j pj Hj Hne. specialize (Hinv j pj Hj). contradiction.
  - rewrite Hsome in Hinv. cbn in Hinv.
    destruct Hinv as (Hne & (pr & Hpr & Hd) & Hmin).
    split; [exact Hne |].
    intros j pj Hj Hji. exists pr. split; [exact Hpr |].
    destruct (Hmin j pj Hj Hji) as [Hle _]. lia.
Qed.

Lemma kd3_disable_done {T : Type} (kd3 kd3' : kd3_tree T) (i : Z) :
  kd3_wf kd3 -> kd3_disable kd3 i = Done kd3' ->
  kd3' = set_disabled kd3 i /\ i <> -1.
Proof.
  intros (Hn & Hlt & _) H. unfold kd3_disable in H.
  destruct (Z.ltb_spec (to_uint32 i) (to_uint32 (nitems kd3))) as [Hi | Hi];
    [| discriminate].
  destruct ((disabled kd3 <? 0) || (disabled kd3 =? i)); [| discriminate].
  injection H as <-. split; [reflexivity |].
  intros ->. unfold to_uint32 in Hi.
  rewrite (Z.mod_small (nitems kd3)) in Hi
    by (change (2 ^ 32) with 4294967296; change (2 ^ 31) with 2147483648 in Hlt; lia).
  change (-1 mod 2 ^ 32) with 4294967295 in Hi.
  change (2 ^ 31) with 2147483648 in Hlt. lia.
Qed.

(** C2: after [kd3_disable(kd3, i)] on a built index, a query, by a
    transformed colour or by raw channels, never returns [i]; it returns an
    index [r] other than [i] whose colour is at least as close, by
    [kc_distance], as the colour of every index [j != i]. *)
Theorem kd3_disable_excludes (gamma_tables : list (list Z)) {T : Type}
        (kd3 kd3' : kd3_tree T) (i : Z) :
  kd3_built kd3 ->
  kd3_disable kd3 i = Done kd3' ->
  (forall k, exists r,
      kd3_closest_transformed kd3' k = Done r /\
      nearest_enabled (ks kd3) i k r) /\
  (forall a0 a1 a2 r,
      kd3_closest8g gamma_tables kd3' a0 a1 a2 = Done r -> r <> i) /\
  (gamma_tables_okb gamma_tables = true ->
   forall a0 a1 a2,
     0 <= a0 <= 255 -> 0 <= a1 <= 255 -> 0 <= a2 <= 255 ->
     exists k r,
       kc_set8g gamma_tables (Kcolor 0 0 0) a0 a1 a2 = Done k /\
       kd3_closest8g gamma_tables kd3' a0 a1 a2 = Done r /\
       nearest_enabled (ks kd3) i (apply_transform kd3 k) r).
Proof.
  intros (Htree & Hwf) Hdis.
  destruct (kd3_disable_done kd3 kd3' i Hwf Hdis) as [-> Hi].
  assert (Hq : forall k, exists r,
             kd3_closest_transformed (set_disabled kd3 i) k = Done r /\
             nearest_enabled (ks kd3) i k r).
  { intros k.
    exact (kd3_closest_nearest_enabled (set_disabled kd3 i) k Htree Hi). }
  split; [exact Hq |]. split.
  { intros a0 a1 a2 r Hr. unfold kd3_closest8g, bind in Hr.
    destruct (kc_set8g gamma_tables (Kcolor 0 0 0) a0 a1 a2) as [k | f];
      [| discriminate].
    destruct (Hq (apply_transform (set_disabled kd3 i) k)) as (r' & Hr' & Hne & _).
    rewrite Hr in Hr'. injection Hr' as <-. exact Hne. }
  intros Hok a0 a1 a2 H0 H1 H2.
  destruct (kc_set8g_inside gamma_tables Hok (Kcolor 0 0 0) a0 a1 a2 H0 H1 H2)
    as (g0 & g1 & g2 & _ & _ & _ & Hset & _).
  destruct (Hq (apply_transform kd3 (Kcolor g0 g1 g2))) as (r & Hr & Hnear).
  exists (Kcolor g0 g1 g2), r. split; [exact Hset |]. split; [| exact Hnear].
  unfold kd3_closest8g, bind. rewrite Hset. exact Hr.
Qed.

(** ** Exclusive radii *)

Lemma nearest_other_inv (p : kcolor) (i : Z) :
  forall l seen best,
    near_inv p i seen best ->
    near_inv p i (seen ++ l)
             (nearest_other p i (Z.of_nat (length seen)) l best).
Proof.
  induction l as [| q l IH]; intros seen best Hinv.
  - rewrite app_nil_r. exact Hinv.
  - cbn [nearest_other].
    replace (seen ++ q :: l) with ((seen ++ [q]) ++ l)
      by (rewrite <- app_assoc; reflexivity).
    replace (Z.of_nat (length seen) + 1) with (Z.of_nat (length (seen ++ [q])))
      by (rewrite length_app; cbn [length]; lia).
    apply IH. intros j q' Hq' Hj.
    apply array_get_snoc in Hq' as [Hq' | [Hq' ->]].
    + destruct (Hinv j q' Hq' Hj) as (d & -> & Hd).
      destruct (Z.of_nat (length seen) =? i).
      * exists d. split; [reflexivity | exact Hd].
      * exists (Z.min d (kc_distance p q)). split; [reflexivity | lia].
    + subst j.
      destruct (Z.eqb_spec (Z.of_nat (length seen)) i) as [E | _];
        [contradiction |].
      destruct best as [d |].
      * exists (Z.min d (kc_distance p q)). split; [reflexivity | lia].
      * exists (kc_distance p q). split; [reflexivity | lia].
Qed.

(** Four times the exclusive radius of a colour is at most its squared
    distance to any other colour. *)
Lemma exclusive_radius_quarter (p : kcolor) (i : Z) (l : list kcolor) :
  forall j q, array_get l j = Done q -> j <> i ->
    4 * exclusive_radius (nearest_other p i 0 l None) <= kc_distance p q.
Proof.
  intros j q Hq Hj.
  assert (Hinv : near_inv p i l (nearest_other p i 0 l None)).
  { apply (nearest_other_inv p i l [] None).
    intros j' q' H'. unfold array_get in H'.
    destruct (j' <? 0); [discriminate |].
    destruct (Z.to_nat j'); discriminate. }
  destruct (Hinv j q Hq Hj) as (d & -> & Hd). cbn [exclusive_radius].
  pose proof (Z.mul_div_le d 4 ltac:(lia)). lia.
Qed.

Lemma xradius_from_get (all : list kcolor) :
  forall l i0 j xr,
    array_get (xradius_from all i0 l) j = Done xr ->
    exists p, array_get l j = Done p /\
              xr = exclusive_radius (nearest_other p (i0 + j) 0 all None).
Proof.
  induction l as [| p l IH]; intros i0 j xr H.
  - unfold array_get in H. cbn in H.
    destruct (j <? 0); [discriminate |]. destruct (Z.to_nat j); discriminate.
  - pose proof (array_get_range _ _ _ H) as Hr.
    destruct (Z.eq_dec j 0) as [-> | Hj].
    + exists p. split; [reflexivity |]. cbn in H. injection H as <-.
      rewrite Z.add_0_r. reflexivity.
    + assert (Hstep : forall (A : Type) (x : A) (t : list A),
                 array_get (x :: t) j = array_get t (j - 1)).
      { intros A x t. unfold array_get.
        replace (j <? 0) with false by (symmetry; apply Z.ltb_ge; lia).
        replace (j - 1 <? 0) with false by (symmetry; apply Z.ltb_ge; lia).
        replace (Z.to_nat j) with (S (Z.to_nat (j - 1))) by lia.
        reflexivity. }
      cbn [xradius_from] in H. rewrite Hstep in H.
      destruct (IH (i0 + 1) (j - 1) xr H) as (q & Hq & Hx).
      exists q. split; [rewrite Hstep; exact Hq |].
      rewrite Hx. f_equal. f_equal. lia.
Qed.

(** A query point within a quarter of the squared distance between two
    colours is strictly closer to the first one. *)
Lemma quarter_closer (p q k : kcolor) :
  4 * sq_dist p k < sq_dist p q -> sq_dist p k < sq_dist q k.
Proof.
  unfold sq_dist.
  set (u0 := a_0 k - a_0 p). set (u1 := a_1 k - a_1 p). set (u2 := a_2 k - a_2 p).
  set (v0 := a_0 q - a_0 p). set (v1 := a_1 q - a_1 p). set (v2 := a_2 q - a_2 p).
  replace (a_0 p - a_0 k) with (- u0) by (unfold u0; ring).
  replace (a_1 p - a_1 k) with (- u1) by (unfold u1; ring).
  replace (a_2 p - a_2 k) with (- u2) by (unfold u2; ring).
  replace (a_0 p - a_0 q) with (- v0) by (unfold v0; ring).
  replace (a_1 p - a_1 q) with (- v1) by (unfold v1; ring).
  replace (a_2 p - a_2 q) with (- v2) by (unfold v2; ring).
  replace (a_0 q - a_0 k) with (v0 - u0) by (unfold u0, v0; ring).
  replace (a_1 q - a_1 k) with (v1 - u1) by (unfold u1, v1; ring).
  replace (a_2 q - a_2 k) with (v2 - u2) by (unfold u2, v2; ring).
  clearbody u0 u1 u2 v0 v1 v2.
  set (U := u0 * u0 + u1 * u1 + u2 * u2).
  set (V := v0 * v0 + v1 * v1 + v2 * v2).
  set (D := u0 * v0 + u1 * v1 + u2 * v2).
  intros H.
  assert (HU : - u0 * - u0 + - u1 * - u1 + - u2 * - u2 = U) by (unfold U; ring).
  assert (HV : - v0 * - v0 + - v1 * - v1 + - v2 * - v2 = V) by (unfold V; ring).
  rewrite HU, HV in H. rewrite HU.
  replace ((v0 - u0) * (v0 - u0) + (v1 - u1) * (v1 - u1) + (v2 - u2) * (v2 - u2))
    with (V - 2 * D + U) by (unfold U, V, D; ring).
  (* Cauchy-Schwarz, from Lagrange's identity *)
  assert (HCS : D * D <= U * V).
  { assert (HL : U * V - D * D =
                 (u0 * v1 - u1 * v0) * (u0 * v1 - u1 * v0)
                 + (u0 * v2 - u2 * v0) * (u0 * v2 - u2 * v0)
                 + (u1 * v2 - u2 * v1) * (u1 * v2 - u2 * v1))
      by (unfold U, V, D; ring).
    pose proof (Z.square_nonneg (u0 * v1 - u1 * v0)).
    pose proof (Z.square_nonneg (u0 * v2 - u2 * v0)).
    pose proof (Z.square_nonneg (u1 * v2 - u2 * v1)).
    lia. }
  assert (HU0 : 0 <= U).
  { pose proof (Z.square_nonneg u0). pose proof (Z.square_nonneg u1).
    pose proof (Z.square_nonneg u2). unfold U. lia. }
  clearbody U V D.
  destruct (Z.lt_ge_cases (2 * D) V) as [Hlt | Hge]; [lia | exfalso].
  assert (HV0 : 0 < V) by lia.
  assert (H1 : V * V <= (2 * D) * (2 * D)) by (apply Z.mul_le_mono_nonneg; lia).
  assert (H2 : 4 * U * V < V * V) by (apply Z.mul_lt_mono_pos_r; lia).
  lia.
Qed.

Lemma array_get_Forall {A : Type} (P : A -> Prop) (l : list A) (j : Z) (v : A) :
  Forall P l -> array_get l j = Done v -> P v.
Proof.
  intros Hall H. unfold array_get in H.
  destruct (j <? 0); [discriminate |].
  destruct (nth_error l (Z.to_nat j)) eqn:E; [| discriminate].
  injection H as <-. rewrite Forall_forall in Hall.
  exact (Hall _ (nth_error_In _ _ E)).
Qed.

(** C1, as the specification of queries forces it: on a built index whose
    exclusive radii are those of its colours, all colours and the query
    having components in [0, 32767], a query colour [k] within the
    exclusive radius of the colour of index [i] is answered by [i],
    provided [i] is not the disabled index. *)
Theorem xradius_sound {T : Type} (kd3 : kd3_tree T) (i : Z) (k pi : kcolor)
        (radii : list Z) (xr : Z) :
  kd3_built kd3 ->
  xradius_valid kd3 ->
  Forall kc_valid (ks kd3) ->
  kc_valid k ->
  disabled kd3 <> i ->
  xradius kd3 = Some radii ->
  array_get radii i = Done xr ->
  array_get (ks kd3) i = Done pi ->
  kc_distance pi k < xr ->
  kd3_closest_transformed kd3 k = Done i.
Proof.
  intros (Htree & _) Hvalid Hks Hk Hen Hrad Hxr Hpi Hnear.
  unfold xradius_valid in Hvalid. cbn in Hvalid. rewrite Hrad in Hvalid.
  injection Hvalid as ->.
  destruct (xradius_from_get _ _ _ _ _ Hxr) as (p & Hp & Hx).
  rewrite Hpi in Hp. injection Hp as <-. rewrite Z.add_0_l in Hx.
  pose proof (array_get_Forall _ _ _ _ Hks Hpi) as Hpiv.
  (* every other colour is strictly farther from the query *)
  assert (Hfar : forall j q, array_get (ks kd3) j = Done q -> j <> i ->
                             kc_distance pi k < kc_distance q k).
  { intros j q Hq Hj.
    pose proof (array_get_Forall _ _ _ _ Hks Hq) as Hqv.
    pose proof (exclusive_radius_quarter pi i (ks kd3) j q Hq Hj) as H4.
    rewrite <- Hx in H4.
    rewrite (kc_distance_valid pi k Hpiv Hk) in *.
    rewrite (kc_distance_valid pi q Hpiv Hqv) in H4.
    rewrite (kc_distance_valid q k Hqv Hk).
    apply quarter_closer. lia. }
  destruct (kd3_closest_transformed_spec kd3 k Htree) as (r & Hr & Hscan).
  rewrite Hr. f_equal.
  pose proof (closest_scan_spec (disabled kd3) k (ks kd3)) as Hinv.
  destruct Hscan as [[_ Hnone] | [d Hsome]].
  - rewrite Hnone in Hinv. cbn in Hinv.
    specialize (Hinv i pi Hpi). congruence.
  - rewrite Hsome in Hinv. cbn in Hinv.
    destruct Hinv as (_ & (pr & Hpr & Hd) & Hmin).
    destruct (Z.eq_dec r i) as [E | Hne]; [exact E | exfalso].
    destruct (Hmin i pi Hpi ltac:(congruence)) as [Hle _].
    pose proof (Hfar r pr Hpr Hne). lia.
Qed.

(* ================================================================== *)
(** * Instances and counterexamples *)

Lemma sample_tables_ok : gamma_tables_okb Sample.tables = true.
Proof. vm_compute. reflexivity. Qed.

Lemma sample_built : kd3_built Sample.built.
Proof.
  split; [discriminate |]. unfold kd3_wf. cbn.
  change (2 ^ 31) with 2147483648. lia.
Qed.

Lemma sample_colours_valid : Forall kc_valid (ks Sample.built).
Proof. cbn. repeat constructor; unfold KC_MAX; cbn; lia. Qed.

(** C1 as stated fails on the disabled index: red is at distance 0 from
    itself, within its exclusive radius, and the query answers black. *)
Lemma xradius_disabled_counterexample :
  kd3_disable Sample.built 2 = Done Sample.without_red /\
  kd3_built Sample.without_red /\
  xradius_valid Sample.without_red /\
  xradius Sample.without_red = Some [268419072; 536838144; 268419072] /\
  array_get (ks Sample.without_red) 2 = Done Sample.red /\
  kc_distance Sample.red Sample.red < 268419072 /\
  kd3_closest_transformed Sample.without_red Sample.red = Done 0 /\
  kd3_closest_transformed Sample.without_red Sample.red <> Done 2.
Proof.
  split; [reflexivity |]. split; [exact sample_built |].
  split; [reflexivity |]. split; [vm_compute; reflexivity |].
  split; [reflexivity |]. split; [vm_compute; reflexivity |].
  split; [vm_compute; reflexivity |]. vm_compute. discriminate.
Qed.

Lemma xradius_sound_witness :
  kd3_built Sample.built /\
  xradius_valid Sample.built /\
  Forall kc_valid (ks Sample.built) /\
  kc_valid Sample.near_red /\
  disabled Sample.built <> 2 /\
  xradius Sample.built = Some [268419072; 536838144; 268419072] /\
  array_get [268419072; 536838144; 268419072] 2 = Done 268419072 /\
  array_get (ks Sample.built) 2 = Done Sample.red /\
  kc_distance Sample.red Sample.near_red < 268419072 /\
  kd3_closest_transformed Sample.built Sample.near_red = Done 2.
Proof.
  assert (H1 : kd3_built Sample.built) by exact sample_built.
  assert (H2 : xradius_valid Sample.built) by reflexivity.
  assert (H3 : Forall kc_valid (ks Sample.built)) by exact sample_colours_valid.
  assert (H4 : kc_valid Sample.near_red) by (unfold kc_valid, KC_MAX; cbn; lia).
  assert (H5 : disabled Sample.built <> 2) by (cbn; lia).
  assert (H6 : xradius Sample.built = Some [268419072; 536838144; 268419072])
    by (vm_compute; reflexivity).
  assert (H7 : array_get [268419072; 536838144; 268419072] 2 = Done 268419072)
    by reflexivity.
  assert (H8 : array_get (ks Sample.built) 2 = Done Sample.red) by reflexivity.
  assert (H9 : kc_distance Sample.red Sample.near_red < 268419072)
    by (vm_compute; reflexivity).
  repeat (split; [assumption |]).
  exact (xradius_sound Sample.built 2 Sample.near_red Sample.red _ _
                       H1 H2 H3 H4 H5 H6 H7 H8 H9).
Defined.

Lemma kd3_disable_excludes_witness :
  kd3_built Sample.built /\
  kd3_disable Sample.built 2 = Done Sample.without_red /\
  gamma_tables_okb Sample.tables = true /\
  (exists r,
      kd3_closest_transformed Sample.without_red Sample.near_red = Done r /\
      nearest_enabled (ks Sample.built) 2 Sample.near_red r) /\
  (exists k r,
      kc_set8g Sample.tables (Kcolor 0 0 0) 250 10 10 = Done k /\
      kd3_closest8g Sample.tables Sample.without_red 250 10 10 = Done r /\
      nearest_enabled (ks Sample.built) 2 (apply_transform Sample.built k) r).
Proof.
  split; [exact sample_built |]. split; [reflexivity |].
  split; [exact sample_tables_ok |].
  destruct (kd3_disable_excludes Sample.tables Sample.built Sample.without_red 2
                                 sample_built eq_refl) as (Hq & _ & H8).
  split; [exact (Hq Sample.near_red) |].
  apply (H8 sample_tables_ok); lia.
Defined.

(** The worked example of the specification on the sample tables: the raw
    channels (250, 10, 10) are answered by red, index 2, and by black,
    index 0, once red is disabled. *)
Example closest8g_sample :
  kd3_closest8g Sample.tables Sample.built 250 10 10 = Done 2 /\
  kd3_closest8g Sample.tables Sample.without_red 250 10 10 = Done 0.
Proof. split; vm_compute; reflexivity. Qed.

(** C3 as stated fails: the distance between collapsed white and collapsed
    black is three times the squared difference of their luminance values,
    not that squared difference. *)
Lemma kc_luminance_collapse_counterexample :
  kc_distance (kc_luminance_transform Sample.white)
              (kc_luminance_transform Sample.black) = 3221028867 /\
  (kc_luminance (kc_luminance_transform Sample.white)
   - kc_luminance (kc_luminance_transform Sample.black)) ^ 2 = 1073676289 /\
  kc_distance (kc_luminance_transform Sample.white)
              (kc_luminance_transform Sample.black) <>
  (kc_luminance (kc_luminance_transform Sample.white)
   - kc_luminance (kc_luminance_transform Sample.black)) ^ 2.
Proof.
  split; [vm_compute; reflexivity |]. split; [vm_compute; reflexivity |].
  vm_compute. discriminate.
Qed.

Lemma kc_luminance_collapse_witness :
  kc_valid Sample.white /\ kc_valid Sample.red /\
  kc_distance (kc_luminance_transform Sample.white)
              (kc_luminance_transform Sample.red) =
  3 * (kc_luminance (kc_luminance_transform Sample.white)
       - kc_luminance (kc_luminance_transform Sample.red)) ^ 2.
Proof.
  assert (Hw : kc_valid Sample.white) by (unfold kc_valid, KC_MAX; cbn; lia).
  assert (Hr : kc_valid Sample.red) by (unfold kc_valid, KC_MAX; cbn; lia).
  split; [exact Hw |]. split; [exact Hr |].
  pose proof (kc_luminance_collapse Sample.white Sample.red) as H.
  cbv zeta in H. destruct H as (_ & _ & H). exact (H Hw Hr).
Defined.

(** The sample forward table holds [(2 * j * 32767 + 255) / 510] at [j]. *)
Lemma sample_forward_at (i g : Z) :
  gamma_at Sample.tables 0 i = Done g ->
  0 <= i < 256 /\ g = (2 * i * 32767 + 255) / 510.
Proof.
  intros H.
  destruct (gamma_at_range Sample.tables 0 i g sample_tables_ok
                           (or_introl eq_refl) H) as [Hi _].
  split; [exact Hi |].
  unfold gamma_at in H.
  change (array_get Sample.tables 0) with (Done Sample.forward_table) in H.
  cbn [bind] in H. unfold array_get in H.
  replace (i <? 0) with false in H by (symmetry; apply Z.ltb_ge; lia).
  unfold Sample.forward_table, Sample.indexes in H.
  rewrite !nth_error_map, nth_error_seq in H.
  replace (Nat.ltb (Z.to_nat i) 256) with true in H
    by (symmetry; apply Nat.ltb_lt; lia).
  cbn [option_map] in H. injection H as <-.
  cbn [Nat.add]. rewrite Z2Nat.id by lia. reflexivity.
Qed.

Lemma sample_forward_monotone : forward_monotone Sample.tables.
Proof.
  intros i j gi gj Hij Hi Hj.
  apply sample_forward_at in Hi as [Hi ->].
  apply sample_forward_at in Hj as [Hj ->].
  apply Z.div_le_mono; lia.
Qed.

(** C4 as stated fails at the estimate: with the sample tables, which are
    well formed and non-decreasing, the estimate for 256 is 256, no probe
    succeeds, and the result 256 has the forward-gamma equivalent 257,
    which exceeds 256. *)
Lemma kc_revgamma_transform_counterexample :
  gamma_tables_okb Sample.tables = true /\
  forward_monotone Sample.tables /\
  kc_valid (Kcolor 256 0 0) /\
  kc_revgamma_transform Sample.tables (Kcolor 256 0 0) = Done (Kcolor 256 0 0) /\
  gamma_at Sample.tables 1 (Z.shiftr 256 7) = Done 256 /\
  gamma_at Sample.tables 0 (Z.shiftr 256 7) = Done 257 /\
  ~ largest_not_exceeding Sample.tables 256 256 256.
Proof.
  split; [vm_compute; reflexivity |].
  split; [exact sample_forward_monotone |].
  split; [unfold kc_valid, KC_MAX; cbn; lia |].
  split; [vm_compute; reflexivity |].
  split; [vm_compute; reflexivity |]. split; [vm_compute; reflexivity |].
  intros (_ & _ & (g & Hg & Hle) & _).
  vm_compute in Hg. injection Hg as <-. lia.
Qed.

Lemma kc_revgamma_transform_probes_witness :
  gamma_tables_okb Sample.tables = true /\
  kc_valid (Kcolor 200 5000 32767) /\
  forward_monotone Sample.tables /\
  forward_le Sample.tables 128 200 /\
  exists x',
    kc_revgamma_transform Sample.tables (Kcolor 200 5000 32767) = Done x' /\
    kc_valid x' /\
    probed_from Sample.tables 200 128 (kc_a x' 0) /\
    largest_not_exceeding Sample.tables 200 128 (kc_a x' 0).
Proof.
  assert (Hv : kc_valid (Kcolor 200 5000 32767))
    by (unfold kc_valid, KC_MAX; cbn; lia).
  assert (Hle : forward_le Sample.tables 128 200)
    by (exists 128; split; [vm_compute; reflexivity | lia]).
  split; [vm_compute; reflexivity |]. split; [exact Hv |].
  split; [exact sample_forward_monotone |]. split; [exact Hle |].
  destruct (kc_revgamma_transform_probes Sample.tables eq_refl
                                         (Kcolor 200 5000 32767) Hv)
    as (x' & Hrun & Hv' & Hd).
  exists x'. split; [exact Hrun |]. split; [exact Hv' |].
  destruct (Hd 0 ltac:(lia)) as (c0 & Hc0 & Hp & Hl).
  vm_compute in Hc0. injection Hc0 as <-.
  split; [exact Hp |]. exact (Hl sample_forward_monotone Hle).
Defined.

(** The run of the witness: 200 is answered by 128, the estimate, since
    the next candidate 256 has the forward value 257. *)
Example kc_revgamma_transform_sample :
  kc_revgamma_transform Sample.tables (Kcolor 200 5000 32767) =
  Done (Kcolor 128 4992 32767).
Proof. vm_compute. reflexivity. Qed.

Lemma kc_distance_exact_witness :
  kc_valid Sample.white /\ kc_valid Sample.black /\
  kc_distance Sample.white Sample.black = 3221028867.
Proof.
  assert (Hw : kc_valid Sample.white) by (unfold kc_valid, KC_MAX; cbn; lia).
  assert (Hb : kc_valid Sample.black) by (unfold kc_valid, KC_MAX; cbn; lia).
  split; [exact Hw |]. split; [exact Hb |].
  pose proof (kc_distance_exact Sample.white Sample.black Hw Hb) as H.
  cbv zeta in H. destruct H as (_ & _ & _ & _ & H). rewrite H. reflexivity.
Defined.

(** C6 as stated fails: [kc_set8g] does not clamp the channel value 256 to
    255, nor -1 to 0; it reads outside the 256-entry forward table. *)
Lemma raw_channels_counterexample :
  kc_set8g Sample.tables Sample.black 256 0 0 = Stop OutOfBounds /\
  kc_set8g Sample.tables Sample.black
           (clamp_channel 256) (clamp_channel 0) (clamp_channel 0)
    = Done Sample.red /\
  kc_set8g Sample.tables Sample.white (-1) 0 0 = Stop OutOfBounds /\
  kc_set8g Sample.tables Sample.white
           (clamp_channel (-1)) (clamp_channel 0) (clamp_channel 0)
    = Done Sample.black.
Proof. repeat split; vm_compute; reflexivity. Qed.

Lemma raw_channels_unclamped_witness :
  gamma_tables_okb Sample.tables = true /\
  0 <= 250 <= 255 /\ 0 <= 10 <= 255 /\
  kd3_built Sample.built /\
  exists g0 g1 g2,
    gamma_at Sample.tables 0 250 = Done g0 /\
    gamma_at Sample.tables 0 10 = Done g1 /\
    gamma_at Sample.tables 0 10 = Done g2 /\
    kc_set8g Sample.tables Sample.black 250 10 10 = Done (Kcolor g0 g1 g2) /\
    kc_valid (Kcolor g0 g1 g2) /\
    kd3_add8g Sample.tables Sample.built 250 10 10 =
      Done (kd3_add_transformed Sample.built
              (apply_transform Sample.built (Kcolor g0 g1 g2))) /\
    exists r,
      kd3_closest8g Sample.tables Sample.built 250 10 10 = Done r /\
      kd3_closest_transformed Sample.built
        (apply_transform Sample.built (Kcolor g0 g1 g2)) = Done r.
Proof.
  assert (H0 : 0 <= 250 <= 255) by lia.
  assert (H1 : 0 <= 10 <= 255) by lia.
  split; [vm_compute; reflexivity |]. split; [exact H0 |]. split; [exact H1 |].
  split; [exact sample_built |].
  destruct (raw_channels_unclamped Sample.tables eq_refl Sample.built
                                   Sample.black 250 10 10) as (H & _ & _).
  destruct (H H0 H1 H1) as (g0 & g1 & g2 & E0 & E1 & E2 & Hs & Hv & Ha & Hc).
  exists g0, g1, g2. repeat (split; [assumption |]).
  exact (Hc sample_built).
Defined.

Lemma kd3_disable_contract_witness :
  kd3_wf Sample.built /\
  - 2 ^ 31 <= 2 < 2 ^ 31 /\
  (0 <= 2 < nitems Sample.built /\
   (disabled Sample.built < 0 \/ disabled Sample.built = 2)) /\
  kd3_disable Sample.built 2 = Done (set_disabled Sample.built 2) /\
  disabled (set_disabled Sample.built 2) = 2.
Proof.
  assert (Hwf : kd3_wf Sample.built) by (apply sample_built).
  assert (Hi : - 2 ^ 31 <= 2 < 2 ^ 31) by (change (2 ^ 31) with 2147483648; lia).
  assert (Hp : 0 <= 2 < nitems Sample.built /\
               (disabled Sample.built < 0 \/ disabled Sample.built = 2))
    by (cbn; lia).
  split; [exact Hwf |]. split; [exact Hi |]. split; [exact Hp |].
  destruct (kd3_disable_contract Sample.built 2) as (H & _).
  destruct (H Hwf Hi) as (Hok & _ & _).
  exact (Hok Hp).
Defined.

Lemma kc_luminance_transform_idempotent_witness :
  kc_valid Sample.red /\
  kc_luminance_transform (kc_luminance_transform Sample.red) =
  kc_luminance_transform Sample.red.
Proof.
  assert (Hr : kc_valid Sample.red) by (unfold kc_valid, KC_MAX; cbn; lia).
  split; [exact Hr |].
  pose proof (kc_luminance_transform_idempotent Sample.red Hr) as H.
  cbv zeta in H. destruct H as (_ & _ & H). exact H.
Defined.

Lemma kc_revgamma_transform_terminates_witness :
  (revgamma_fuel <= 300)%nat /\
  kc_revgamma_transform_fuel Sample.tables 300 Sample.near_red <> Stop OutOfFuel /\
  kc_revgamma_transform_fuel Sample.tables 300 Sample.near_red =
  kc_revgamma_transform Sample.tables Sample.near_red.
Proof.
  assert (Hf : (revgamma_fuel <= 300)%nat) by (unfold revgamma_fuel; lia).
  split; [exact Hf |].
  destruct (kc_revgamma_transform_terminates Sample.tables Sample.near_red)
    as (H & _).
  exact (H 300%nat Hf).
Defined.

(* ================================================================== *)
(** * Further properties of kcolor.h *)

(** ** KC_CLAMPV *)

(** X1: [KC_CLAMPV] is idempotent and monotone, and its value is the point of
    [0, KC_MAX] nearest to its argument: it lies in [0, KC_MAX] and no
    value of [0, KC_MAX] is nearer. *)
Theorem KC_CLAMPV_nearest (v w : Z) :
  0 <= KC_CLAMPV v <= KC_MAX /\
  KC_CLAMPV (KC_CLAMPV v) = KC_CLAMPV v /\
  (v <= w -> KC_CLAMPV v <= KC_CLAMPV w) /\
  (0 <= w <= KC_MAX -> Z.abs (KC_CLAMPV v - v) <= Z.abs (w - v)).
Proof.
  assert (Hc : forall u, (u < 0 /\ KC_CLAMPV u = 0) \/
                         (0 <= u < KC_MAX /\ KC_CLAMPV u = u) \/
                         (KC_MAX <= u /\ KC_CLAMPV u = KC_MAX)).
  { intros u. unfold KC_CLAMPV.
    destruct (Z.ltb_spec u 0); [left; split; [lia | reflexivity] |].
    destruct (Z.ltb_spec u KC_MAX);
      [right; left | right; right]; split; (lia || reflexivity). }
  assert (HM : KC_MAX = 32767) by reflexivity.
  split; [| split; [| split]].
  - destruct (Hc v) as [(Hv & E) | [(Hv & E) | (Hv & E)]]; rewrite E; lia.
  - destruct (Hc v) as [(Hv & E) | [(Hv & E) | (Hv & E)]]; rewrite E;
      destruct (Hc (KC_CLAMPV v)) as [(Hu & F) | [(Hu & F) | (Hu & F)]];
      rewrite E in *; lia.
  - intros Hle.
    destruct (Hc v) as [(Hv & E) | [(Hv & E) | (Hv & E)]];
      destruct (Hc w) as [(Hw & F) | [(Hw & F) | (Hw & F)]];
      rewrite E, F; lia.
  - intros Hw.
    destruct (Hc v) as [(Hv & E) | [(Hv & E) | (Hv & E)]]; rewrite E; lia.
Qed.

Lemma KC_CLAMPV_nearest_witness :
  -5 <= 100 /\ 0 <= 100 <= KC_MAX /\
  0 <= KC_CLAMPV (-5) <= KC_MAX /\
  KC_CLAMPV (-5) <= KC_CLAMPV 100 /\
  Z.abs (KC_CLAMPV (-5) - -5) <= Z.abs (100 - -5).
Proof.
  assert (H1 : -5 <= 100) by lia.
  assert (H2 : 0 <= 100 <= KC_MAX) by (unfold KC_MAX; lia).
  split; [exact H1 |]. split; [exact H2 |].
  destruct (KC_CLAMPV_nearest (-5) 100) as (Hr & _ & Hm & Hn).
  split; [exact Hr |]. split; [exact (Hm H1) | exact (Hn H2)].
Defined.

(** ** kc_luminance *)

Lemma kc_luminance_div (x : kcolor) :
  kc_int16 x ->
  kc_luminance x = (306 * a_0 x + 601 * a_1 x + 117 * a_2 x) / 1024.
Proof.
  unfold kc_int16, INT16_MIN, INT16_MAX, kc_luminance.
  change (2 ^ 15) with 32768. intros (H0 & H1 & H2).
  rewrite to_int32_small by (change (2 ^ 31) with 2147483648; lia).
  rewrite Z.shiftr_div_pow2 by lia. reflexivity.
Qed.

(** X2: the luminance of a colour lies between its smallest and its largest
    component; for components in [0, KC_MAX] it is between 0 and KC_MAX, as
    the header says. *)
Theorem kc_luminance_between (x : kcolor) :
  kc_int16 x ->
  Z.min (a_0 x) (Z.min (a_1 x) (a_2 x)) <= kc_luminance x
    <= Z.max (a_0 x) (Z.max (a_1 x) (a_2 x)) /\
  (kc_valid x -> 0 <= kc_luminance x <= KC_MAX).
Proof.
  intros Hx. rewrite (kc_luminance_div x Hx).
  assert (Hb : Z.min (a_0 x) (Z.min (a_1 x) (a_2 x))
               <= (306 * a_0 x + 601 * a_1 x + 117 * a_2 x) / 1024
               <= Z.max (a_0 x) (Z.max (a_1 x) (a_2 x))).
  { split.
    - apply Z.div_le_lower_bound; lia.
    - apply Z.div_le_upper_bound; lia. }
  split; [exact Hb |].
  unfold kc_valid. intros (H0 & H1 & H2). lia.
Qed.

Lemma kc_luminance_between_witness :
  kc_int16 Sample.near_red /\ kc_valid Sample.near_red /\
  100 <= kc_luminance Sample.near_red <= 32000 /\
  0 <= kc_luminance Sample.near_red <= KC_MAX.
Proof.
  assert (Hi : kc_int16 Sample.near_red)
    by (unfold kc_int16, INT16_MIN, INT16_MAX; cbn; lia).
  assert (Hv : kc_valid Sample.near_red) by (unfold kc_valid, KC_MAX; cbn; lia).
  split; [exact Hi |]. split; [exact Hv |].
  destruct (kc_luminance_between Sample.near_red Hi) as (Hb & Hr).
  split; [exact Hb | exact (Hr Hv)].
Defined.

(** X3: the luminance never decreases when components increase. *)
Theorem kc_luminance_monotone (x y : kcolor) :
  kc_int16 x -> kc_int16 y ->
  a_0 x <= a_0 y -> a_1 x <= a_1 y -> a_2 x <= a_2 y ->
  kc_luminance x <= kc_luminance y.
Proof.
  intros Hx Hy H0 H1 H2.
  rewrite (kc_luminance_div x Hx), (kc_luminance_div y Hy).
  apply Z.div_le_mono; lia.
Qed.

Lemma kc_luminance_monotone_witness :
  kc_int16 Sample.red /\ kc_int16 Sample.white /\
  a_0 Sample.red <= a_0 Sample.white /\
  a_1 Sample.red <= a_1 Sample.white /\
  a_2 Sample.red <= a_2 Sample.white /\
  kc_luminance Sample.red <= kc_luminance Sample.white.
Proof.
  assert (Hr : kc_int16 Sample.red)
    by (unfold kc_int16, INT16_MIN, INT16_MAX; cbn; lia).
  assert (Hw : kc_int16 Sample.white)
    by (unfold kc_int16, INT16_MIN, INT16_MAX; cbn; lia).
  assert (H0 : a_0 Sample.red <= a_0 Sample.white) by (cbn; lia).
  assert (H1 : a_1 Sample.red <= a_1 Sample.white) by (cbn; lia).
  assert (H2 : a_2 Sample.red <= a_2 Sample.white) by (cbn; lia).
  repeat (split; [assumption |]).
  exact (kc_luminance_monotone Sample.red Sample.white Hr Hw H0 H1 H2).
Defined.

(** ** kc_luminance_transform *)

(** X4: the colours [kc_luminance_transform] leaves unchanged are exactly the
    gray ones. *)
Theorem kc_luminance_transform_fixed (x : kcolor) :
  kc_int16 x ->
  (kc_luminance_transform x = x <-> a_0 x = a_1 x /\ a_1 x = a_2 x).
Proof.
  intros Hx. rewrite (kc_luminance_transform_int16 x Hx). split.
  - intros H. rewrite <- H. cbn. split; reflexivity.
  - intros (H01 & H12). destruct x as [p q r].
    cbn [a_0 a_1 a_2] in H01, H12. subst q r.
    rewrite kc_luminance_gray; [reflexivity |].
    destruct Hx as (H & _). exact H.
Qed.

Lemma kc_luminance_transform_fixed_witness :
  kc_int16 (Kcolor 1234 1234 1234) /\
  kc_luminance_transform (Kcolor 1234 1234 1234) = Kcolor 1234 1234 1234.
Proof.
  assert (H : kc_int16 (Kcolor 1234 1234 1234))
    by (unfold kc_int16, INT16_MIN, INT16_MAX; cbn; lia).
  split; [exact H |].
  apply (kc_luminance_transform_fixed (Kcolor 1234 1234 1234) H).
  split; reflexivity.
Defined.

(** X5: [kc_luminance_transform] keeps the luminance, and keeps the components
    in the ranges they had: [int16_t] values, and [0, KC_MAX]. *)
Theorem kc_luminance_transform_preserves (x : kcolor) :
  kc_int16 x ->
  kc_luminance (kc_luminance_transform x) = kc_luminance x /\
  kc_int16 (kc_luminance_transform x) /\
  (kc_valid x -> kc_valid (kc_luminance_transform x)).
Proof.
  intros Hx. rewrite (kc_luminance_transform_int16 x Hx).
  pose proof (kc_luminance_range x Hx) as Hr.
  split; [apply kc_luminance_gray, Hr |]. split.
  - unfold kc_int16. cbn. auto.
  - intros Hv. pose proof (kc_luminance_valid x Hv). unfold kc_valid. cbn. auto.
Qed.

Lemma kc_luminance_transform_preserves_witness :
  kc_int16 Sample.near_red /\ kc_valid Sample.near_red /\
  kc_luminance (kc_luminance_transform Sample.near_red) =
    kc_luminance Sample.near_red /\
  kc_valid (kc_luminance_transform Sample.near_red).
Proof.
  assert (Hi : kc_int16 Sample.near_red)
    by (unfold kc_int16, INT16_MIN, INT16_MAX; cbn; lia).
  assert (Hv : kc_valid Sample.near_red) by (unfold kc_valid, KC_MAX; cbn; lia).
  split; [exact Hi |]. split; [exact Hv |].
  destruct (kc_luminance_transform_preserves Sample.near_red Hi) as (Hl & _ & Hk).
  split; [exact Hl | exact (Hk Hv)].
Defined.

(** ** kc_distance *)

(** A sum of three squares divisible by 4 has three even terms. *)
Lemma three_squares_even (a b c : Z) :
  (4 | a * a + b * b + c * c) -> (2 | a) /\ (2 | b) /\ (2 | c).
Proof.
  intros [t Ht].
  assert (Hp : forall u, exists q r, u = 2 * q + r /\ (r = 0 \/ r = 1)).
  { intros u. exists (u / 2), (u mod 2).
    pose proof (Z.div_mod u 2 ltac:(lia)).
    pose proof (Z.mod_pos_bound u 2 ltac:(lia)). lia. }
  destruct (Hp a) as (qa & ra & Ea & Ha).
  destruct (Hp b) as (qb & rb & Eb & Hb).
  destruct (Hp c) as (qc & rc & Ec & Hc).
  assert (Hsum : ra + rb + rc = 0).
  { subst a b c.
    assert (E : 4 * (qa * qa + qa * ra + qb * qb + qb * rb + qc * qc + qc * rc)
                + (ra * ra + rb * rb + rc * rc) = t * 4) by (rewrite <- Ht; ring).
    destruct Ha as [-> | ->], Hb as [-> | ->], Hc as [-> | ->]; lia. }
  assert (ra = 0 /\ rb = 0 /\ rc = 0) as (-> & -> & ->) by lia.
  subst a b c. repeat split; [exists qa | exists qb | exists qc]; ring.
Qed.

(** Descent: a sum of three squares divisible by [4^k] has three terms
    divisible by [2^k]. *)
Lemma three_squares_descent (k : nat) :
  forall a b c,
    (4 ^ Z.of_nat k | a * a + b * b + c * c) ->
    (2 ^ Z.of_nat k | a) /\ (2 ^ Z.of_nat k | b) /\ (2 ^ Z.of_nat k | c).
Proof.
  induction k as [| k IH]; intros a b c Hdiv.
  - cbn. repeat split; apply Z.divide_1_l.
  - rewrite Nat2Z.inj_succ, Z.pow_succ_r in * by lia.
    destruct Hdiv as [t Ht].
    destruct (three_squares_even a b c) as ([a' Ea] & [b' Eb] & [c' Ec]).
    { exists (t * 4 ^ Z.of_nat k). rewrite Ht. ring. }
    subst a b c.
    destruct (IH a' b' c') as ([a2 Ea] & [b2 Eb] & [c2 Ec]).
    { exists t. set (P := 4 ^ Z.of_nat k) in *.
      assert (E : 4 * (a' * a' + b' * b' + c' * c') = 4 * (t * P)).
      { transitivity (a' * 2 * (a' * 2) + b' * 2 * (b' * 2) + c' * 2 * (c' * 2));
          [ring | rewrite Ht; ring]. }
      lia. }
    subst a' b' c'.
    repeat split; [exists a2 | exists b2 | exists c2]; ring.
Qed.

(** X6: [kc_distance] is 0 exactly on equal colours, for all [int16_t]
    components: the reduction modulo [2^32] never maps the squared distance
    of two different colours to 0. *)
Theorem kc_distance_zero (x y : kcolor) :
  kc_int16 x -> kc_int16 y ->
  (kc_distance x y = 0 <-> x = y).
Proof.
  intros Hx Hy. split.
  - intros H0. rewrite kc_distance_mod in H0.
    apply Z.mod_divide in H0; [| lia].
    change (2 ^ 32) with (4 ^ Z.of_nat 16) in H0.
    destruct (three_squares_descent 16 _ _ _ H0) as ([u Eu] & [v Ev] & [w Ew]).
    change (2 ^ Z.of_nat 16) with 65536 in *.
    unfold kc_int16, INT16_MIN, INT16_MAX in Hx, Hy.
    change (2 ^ 15) with 32768 in *.
    destruct x as [x0 x1 x2], y as [y0 y1 y2]. cbn [a_0 a_1 a_2] in *.
    f_equal; lia.
  - intros ->. rewrite kc_distance_mod. unfold sq_dist.
    rewrite !Z.sub_diag. reflexivity.
Qed.

Lemma kc_distance_zero_witness :
  kc_int16 (Kcolor (-32768) 32767 5) /\
  kc_distance (Kcolor (-32768) 32767 5) (Kcolor (-32768) 32767 5) = 0.
Proof.
  assert (H : kc_int16 (Kcolor (-32768) 32767 5))
    by (unfold kc_int16, INT16_MIN, INT16_MAX; cbn; lia).
  split; [exact H |].
  apply (kc_distance_zero _ _ H H). reflexivity.
Defined.

(** X7: the squared difference along one axis is a lower bound of the
    distance: a search may discard what lies farther along one axis than
    the best distance found. *)
Theorem kc_distance_axis (x y : kcolor) (d : Z) :
  kc_valid x -> kc_valid y -> 0 <= d < 3 ->
  (kc_a x d - kc_a y d) * (kc_a x d - kc_a y d) <= kc_distance x y.
Proof.
  intros Hx Hy Hd. rewrite (kc_distance_valid x y Hx Hy). unfold sq_dist.
  pose proof (Z.square_nonneg (a_0 x - a_0 y)).
  pose proof (Z.square_nonneg (a_1 x - a_1 y)).
  pose proof (Z.square_nonneg (a_2 x - a_2 y)).
  assert (d = 0 \/ d = 1 \/ d = 2) as [-> | [-> | ->]] by lia;
    unfold kc_a; cbn; lia.
Qed.

Lemma kc_distance_axis_witness :
  kc_valid Sample.near_red /\ kc_valid Sample.white /\ 0 <= 1 < 3 /\
  (kc_a Sample.near_red 1 - kc_a Sample.white 1)
  * (kc_a Sample.near_red 1 - kc_a Sample.white 1)
  <= kc_distance Sample.near_red Sample.white.
Proof.
  assert (H1 : kc_valid Sample.near_red) by (unfold kc_valid, KC_MAX; cbn; lia).
  assert (H2 : kc_valid Sample.white) by (unfold kc_valid, KC_MAX; cbn; lia).
  assert (H3 : 0 <= 1 < 3) by lia.
  split; [exact H1 |]. split; [exact H2 |]. split; [exact H3 |].
  exact (kc_distance_axis Sample.near_red Sample.white 1 H1 H2 H3).
Defined.

(** X8: the relaxed triangle inequality of a squared distance. *)
Theorem kc_distance_triangle (x y z : kcolor) :
  kc_valid x -> kc_valid y -> kc_valid z ->
  kc_distance x z <= 2 * (kc_distance x y + kc_distance y z).
Proof.
  intros Hx Hy Hz.
  rewrite (kc_distance_valid x z Hx Hz), (kc_distance_valid x y Hx Hy),
    (kc_distance_valid y z Hy Hz).
  unfold sq_dist.
  assert (Hs : forall u v, (u + v) * (u + v) <= 2 * (u * u + v * v)).
  { intros u v. pose proof (Z.square_nonneg (u - v)). lia. }
  pose proof (Hs (a_0 x - a_0 y) (a_0 y - a_0 z)) as H0.
  pose proof (Hs (a_1 x - a_1 y) (a_1 y - a_1 z)) as H1.
  pose proof (Hs (a_2 x - a_2 y) (a_2 y - a_2 z)) as H2.
  replace (a_0 x - a_0 y + (a_0 y - a_0 z)) with (a_0 x - a_0 z) in H0 by ring.
  replace (a_1 x - a_1 y + (a_1 y - a_1 z)) with (a_1 x - a_1 z) in H1 by ring.
  replace (a_2 x - a_2 y + (a_2 y - a_2 z)) with (a_2 x - a_2 z) in H2 by ring.
  lia.
Qed.

Lemma kc_distance_triangle_witness :
  kc_valid Sample.black /\ kc_valid Sample.red /\ kc_valid Sample.white /\
  kc_distance Sample.black Sample.white
  <= 2 * (kc_distance Sample.black Sample.red
          + kc_distance Sample.red Sample.white).
Proof.
  assert (H1 : kc_valid Sample.black) by (unfold kc_valid, KC_MAX; cbn; lia).
  assert (H2 : kc_valid Sample.red) by (unfold kc_valid, KC_MAX; cbn; lia).
  assert (H3 : kc_valid Sample.white) by (unfold kc_valid, KC_MAX; cbn; lia).
  split; [exact H1 |]. split; [exact H2 |]. split; [exact H3 |].
  exact (kc_distance_triangle Sample.black Sample.red Sample.white H1 H2 H3).
Defined.

(** ** kc_set8g *)

(** X9: [kc_set8g] overwrites the whole colour: its outcome does not depend on
    the previous content of [*x].  Whatever the tables hold, a colour it
    returns has [int16_t] components, the converted forward-table entries
    of the three channels, and the only fault is a read outside a table. *)
Theorem kc_set8g_overwrites (gamma_tables : list (list Z)) (x y : kcolor)
        (a0 a1 a2 : Z) :
  kc_set8g gamma_tables x a0 a1 a2 = kc_set8g gamma_tables y a0 a1 a2 /\
  (forall k, kc_set8g gamma_tables x a0 a1 a2 = Done k ->
     kc_int16 k /\
     exists g0 g1 g2,
       gamma_at gamma_tables 0 a0 = Done g0 /\
       gamma_at gamma_tables 0 a1 = Done g1 /\
       gamma_at gamma_tables 0 a2 = Done g2 /\
       k = Kcolor (to_int16 g0) (to_int16 g1) (to_int16 g2)) /\
  (forall f, kc_set8g gamma_tables x a0 a1 a2 = Stop f -> f = OutOfBounds).
Proof.
  unfold kc_set8g, bind.
  destruct (gamma_at gamma_tables 0 a0) as [g0 | f0] eqn:E0.
  2:{ split; [reflexivity |]. split; [discriminate |].
      intros f H. injection H as <-. eapply gamma_at_fault, E0. }
  destruct (gamma_at gamma_tables 0 a1) as [g1 | f1] eqn:E1.
  2:{ split; [reflexivity |]. split; [discriminate |].
      intros f H. injection H as <-. eapply gamma_at_fault, E1. }
  destruct (gamma_at gamma_tables 0 a2) as [g2 | f2] eqn:E2.
  2:{ split; [reflexivity |]. split; [discriminate |].
      intros f H. injection H as <-. eapply gamma_at_fault, E2. }
  split; [reflexivity |]. split; [| discriminate].
  intros k H. injection H as <-. split.
  - unfold kc_int16, kc_store. cbn.
    repeat split; apply to_int16_range.
  - exists g0, g1, g2. repeat (split; [reflexivity |]). reflexivity.
Qed.

Lemma kc_set8g_overwrites_witness :
  kc_set8g Sample.tables Sample.white 250 10 10 = Done (Kcolor 32125 1285 1285) /\
  kc_int16 (Kcolor 32125 1285 1285) /\
  kc_set8g Sample.tables Sample.black 250 10 10 = Done (Kcolor 32125 1285 1285).
Proof.
  assert (H : kc_set8g Sample.tables Sample.white 250 10 10
              = Done (Kcolor 32125 1285 1285)) by (vm_compute; reflexivity).
  destruct (kc_set8g_overwrites Sample.tables Sample.white Sample.black 250 10 10)
    as (Heq & Hdone & _).
  split; [exact H |]. split.
  - exact (proj1 (Hdone _ H)).
  - rewrite <- Heq. exact H.
Defined.

(** ** kc_revgamma_transform, component by component *)

Lemma revgamma_component_neg (gamma_tables : list (list Z)) (fuel : nat)
      (x : kcolor) (d : Z) :
  kc_a x d < 0 ->
  revgamma_component gamma_tables fuel x d = Stop OutOfBounds.
Proof.
  intros Hneg. unfold revgamma_component.
  rewrite gamma_at_neg; [reflexivity |].
  apply Z.shiftr_neg. exact Hneg.
Qed.

Lemma revgamma_component_run (gamma_tables : list (list Z)) (x : kcolor) (d : Z) :
  gamma_tables_okb gamma_tables = true ->
  0 <= d < 3 -> 0 <= kc_a x d <= KC_MAX ->
  exists e r,
    component_run gamma_tables (kc_a x d) e r /\
    revgamma_component gamma_tables revgamma_fuel x d = Done (kc_store x d r).
Proof.
  intros Hok Hd Hx.
  destruct (gamma_at_ok gamma_tables 1 (Z.shiftr (kc_a x d) 7) Hok)
    as (e & He & Hre); [right; reflexivity | apply shiftr7_index, Hx |].
  destruct (revgamma_probe_done gamma_tables Hok 256 (kc_a x d) e Hre)
    as (r & Hrun & Hr).
  { unfold KC_MAX in *. lia. }
  exists e, r. split.
  - split; [exact He |]. split; [exact Hrun | exact Hr].
  - unfold revgamma_component, bind. rewrite He.
    change revgamma_fuel with 257%nat. rewrite Hrun. reflexivity.
Qed.

Lemma kc_revgamma_transform_components (gamma_tables : list (list Z)) (x : kcolor) :
  gamma_tables_okb gamma_tables = true -> kc_valid x ->
  exists e0 e1 e2 r0 r1 r2,
    kc_revgamma_transform gamma_tables x = Done (Kcolor r0 r1 r2) /\
    component_run gamma_tables (a_0 x) e0 r0 /\
    component_run gamma_tables (a_1 x) e1 r1 /\
    component_run gamma_tables (a_2 x) e2 r2.
Proof.
  intros Hok (H0 & H1 & H2).
  destruct (revgamma_component_run gamma_tables x 0 Hok ltac:(lia) H0)
    as (e0 & r0 & Hc0 & Hx0).
  destruct (revgamma_component_run gamma_tables (kc_store x 0 r0) 1 Hok
                                   ltac:(lia) H1)
    as (e1 & r1 & Hc1 & Hx1).
  destruct (revgamma_component_run gamma_tables
              (kc_store (kc_store x 0 r0) 1 r1) 2 Hok ltac:(lia) H2)
    as (e2 & r2 & Hc2 & Hx2).
  assert (Hi : forall r, 0 <= r <= KC_MAX -> to_int16 r = r).
  { intros r Hr. apply to_int16_small.
    unfold KC_MAX, INT16_MIN, INT16_MAX in *. change (2 ^ 15) with 32768. lia. }
  exists e0, e1, e2, r0, r1, r2.
  split; [| split; [exact Hc0 | split; [exact Hc1 | exact Hc2]]].
  unfold kc_revgamma_transform, kc_revgamma_transform_fuel, bind.
  rewrite Hx0, Hx1, Hx2. unfold kc_store. cbn.
  destruct Hc0 as (_ & _ & R0), Hc1 as (_ & _ & R1), Hc2 as (_ & _ & R2).
  rewrite (Hi r0 R0), (Hi r1 R1), (Hi r2 R2). reflexivity.
Qed.

Lemma kc_revgamma_transform_component (gamma_tables : list (list Z))
      (x : kcolor) (d : Z) :
  gamma_tables_okb gamma_tables = true -> kc_valid x -> 0 <= d < 3 ->
  exists x' e,
    kc_revgamma_transform gamma_tables x = Done x' /\
    component_run gamma_tables (kc_a x d) e (kc_a x' d).
Proof.
  intros Hok Hx Hd.
  destruct (kc_revgamma_transform_components gamma_tables x Hok Hx)
    as (e0 & e1 & e2 & r0 & r1 & r2 & Hrun & Hc0 & Hc1 & Hc2).
  exists (Kcolor r0 r1 r2).
  assert (d = 0 \/ d = 1 \/ d = 2) as [-> | [-> | ->]] by lia;
    [exists e0 | exists e1 | exists e2]; (split; [exact Hrun | assumption]).
Qed.

(** X10: with well-formed tables [kc_revgamma_transform] returns a colour
    exactly for the colours with components in [0, KC_MAX]; a negative
    component makes the reverse-table read fall before the table. *)
Theorem kc_revgamma_transform_domain (gamma_tables : list (list Z)) (x : kcolor) :
  gamma_tables_okb gamma_tables = true -> kc_int16 x ->
  ((exists x', kc_revgamma_transform gamma_tables x = Done x') <-> kc_valid x) /\
  (~ kc_valid x -> kc_revgamma_transform gamma_tables x = Stop OutOfBounds).
Proof.
  intros Hok Hx.
  assert (Hbad : ~ kc_valid x ->
                 kc_revgamma_transform gamma_tables x = Stop OutOfBounds).
  { intros Hnv. unfold kc_int16, INT16_MIN, INT16_MAX in Hx.
    change (2 ^ 15) with 32768 in Hx. destruct Hx as (I0 & I1 & I2).
    unfold kc_valid, KC_MAX in Hnv.
    unfold kc_revgamma_transform, kc_revgamma_transform_fuel.
    destruct (Z.lt_ge_cases (a_0 x) 0) as [N0 | P0].
    { rewrite revgamma_component_neg by exact N0. reflexivity. }
    destruct (revgamma_component_run gamma_tables x 0 Hok ltac:(lia))
      as (e0 & r0 & _ & ->); [unfold KC_MAX; cbn; lia |].
    cbn [bind].
    destruct (Z.lt_ge_cases (a_1 x) 0) as [N1 | P1].
    { rewrite revgamma_component_neg by exact N1. reflexivity. }
    destruct (revgamma_component_run gamma_tables (kc_store x 0 r0) 1 Hok
                                     ltac:(lia))
      as (e1 & r1 & _ & ->); [unfold KC_MAX; cbn; lia |].
    cbn [bind].
    apply revgamma_component_neg. cbn. lia. }
  split; [| exact Hbad]. split.
  - intros (x' & Hrun).
    destruct (Z.lt_ge_cases (a_0 x) 0) as [N0 | P0];
      [| destruct (Z.lt_ge_cases (a_1 x) 0) as [N1 | P1];
         [| destruct (Z.lt_ge_cases (a_2 x) 0) as [N2 | P2]]].
    4:{ unfold kc_int16, INT16_MIN, INT16_MAX in Hx.
        change (2 ^ 15) with 32768 in Hx. unfold kc_valid, KC_MAX. lia. }
    all: rewrite Hbad in Hrun by (unfold kc_valid; lia); discriminate.
  - intros Hv.
    destruct (kc_revgamma_transform_components gamma_tables x Hok Hv)
      as (_ & _ & _ & r0 & r1 & r2 & Hrun & _).
    exists (Kcolor r0 r1 r2). exact Hrun.
Qed.

Lemma kc_revgamma_transform_domain_witness :
  gamma_tables_okb Sample.tables = true /\
  kc_int16 (Kcolor 200 (-1) 300) /\
  ~ kc_valid (Kcolor 200 (-1) 300) /\
  kc_revgamma_transform Sample.tables (Kcolor 200 (-1) 300) = Stop OutOfBounds.
Proof.
  assert (Hi : kc_int16 (Kcolor 200 (-1) 300))
    by (unfold kc_int16, INT16_MIN, INT16_MAX; cbn; lia).
  assert (Hn : ~ kc_valid (Kcolor 200 (-1) 300))
    by (unfold kc_valid; cbn; lia).
  split; [exact sample_tables_ok |]. split; [exact Hi |]. split; [exact Hn |].
  destruct (kc_revgamma_transform_domain Sample.tables (Kcolor 200 (-1) 300)
                                         sample_tables_ok Hi) as (_ & H).
  exact (H Hn).
Defined.

(** The probing loop only adds multiples of 128: it never goes below its
    start, keeps the low seven bits, and moves the sample index
    [c >> 7] up by the number of iterations. *)
Lemma revgamma_probe_low_bits (gamma_tables : list (list Z)) (fuel : nat)
      (xd c r : Z) :
  revgamma_probe gamma_tables fuel xd c = Done r ->
  c <= r /\
  Z.land r 0x7F = Z.land c 0x7F /\
  (0x7F80 <= c -> r = c) /\
  (c < 0x7F80 -> r < 0x8000).
Proof.
  intros Hrun.
  destruct (revgamma_probe_run gamma_tables fuel xd c r Hrun)
    as (n & _ & Hr & Hsteps & _).
  split; [lia |]. split; [| split].
  - change 0x7F with (Z.ones 7). rewrite !Z.land_ones by lia.
    rewrite Hr. replace (0x80 * Z.of_nat n) with (Z.of_nat n * 2 ^ 7) by lia.
    apply Z_mod_plus_full.
  - intros Hc. destruct n as [| n]; [lia |].
    destruct (Hsteps 0%nat ltac:(lia)) as [Hb _]. lia.
  - intros Hc. destruct n as [| n]; [lia |].
    destruct (Hsteps n ltac:(lia)) as [Hb _]. lia.
Qed.

(** X11: every component of the result of [kc_revgamma_transform] is at least
    the reverse-table estimate for that component and has the estimate's
    low seven bits; an estimate of [0x7F80] or more is returned as it is. *)
Theorem kc_revgamma_transform_low_bits (gamma_tables : list (list Z))
        (x : kcolor) (d : Z) :
  gamma_tables_okb gamma_tables = true -> kc_valid x -> 0 <= d < 3 ->
  exists x' e,
    kc_revgamma_transform gamma_tables x = Done x' /\
    gamma_at gamma_tables 1 (Z.shiftr (kc_a x d) 7) = Done e /\
    e <= kc_a x' d <= KC_MAX /\
    Z.land (kc_a x' d) 0x7F = Z.land e 0x7F /\
    (0x7F80 <= e -> kc_a x' d = e).
Proof.
  intros Hok Hx Hd.
  destruct (kc_revgamma_transform_component gamma_tables x d Hok Hx Hd)
    as (x' & e & Hrun & He & Hp & Hr).
  destruct (revgamma_probe_low_bits _ _ _ _ _ Hp) as (Hle & Hlow & Htop & _).
  exists x', e. repeat split; try assumption; lia.
Qed.

Lemma kc_revgamma_transform_low_bits_witness :
  gamma_tables_okb Sample.tables = true /\
  kc_valid (Kcolor 200 5000 32767) /\ 0 <= 1 < 3 /\
  exists x' e,
    kc_revgamma_transform Sample.tables (Kcolor 200 5000 32767) = Done x' /\
    gamma_at Sample.tables 1 (Z.shiftr (kc_a (Kcolor 200 5000 32767) 1) 7)
      = Done e /\
    e <= kc_a x' 1 <= KC_MAX /\
    Z.land (kc_a x' 1) 0x7F = Z.land e 0x7F /\
    (0x7F80 <= e -> kc_a x' 1 = e).
Proof.
  assert (Hv : kc_valid (Kcolor 200 5000 32767))
    by (unfold kc_valid, KC_MAX; cbn; lia).
  assert (Hd : 0 <= 1 < 3) by lia.
  split; [exact sample_tables_ok |]. split; [exact Hv |]. split; [exact Hd |].
  exact (kc_revgamma_transform_low_bits Sample.tables (Kcolor 200 5000 32767) 1
                                        sample_tables_ok Hv Hd).
Defined.

(** X12: [kc_revgamma_transform] acts on each component alone: two colours with
    the same component [d] get the same component [d]. *)
Theorem kc_revgamma_transform_componentwise (gamma_tables : list (list Z))
        (x y : kcolor) (d : Z) :
  gamma_tables_okb gamma_tables = true ->
  kc_valid x -> kc_valid y -> 0 <= d < 3 ->
  kc_a x d = kc_a y d ->
  exists x' y',
    kc_revgamma_transform gamma_tables x = Done x' /\
    kc_revgamma_transform gamma_tables y = Done y' /\
    kc_a x' d = kc_a y' d.
Proof.
  intros Hok Hx Hy Hd Heq.
  destruct (kc_revgamma_transform_component gamma_tables x d Hok Hx Hd)
    as (x' & e & Hrx & He & Hp & _).
  destruct (kc_revgamma_transform_component gamma_tables y d Hok Hy Hd)
    as (y' & e' & Hry & He' & Hp' & _).
  exists x', y'. split; [exact Hrx |]. split; [exact Hry |].
  rewrite <- Heq in He', Hp'.
  assert (e' = e) by congruence. subst e'. congruence.
Qed.

Lemma kc_revgamma_transform_componentwise_witness :
  gamma_tables_okb Sample.tables = true /\
  kc_valid Sample.red /\ kc_valid Sample.white /\ 0 <= 0 < 3 /\
  kc_a Sample.red 0 = kc_a Sample.white 0 /\
  exists x' y',
    kc_revgamma_transform Sample.tables Sample.red = Done x' /\
    kc_revgamma_transform Sample.tables Sample.white = Done y' /\
    kc_a x' 0 = kc_a y' 0.
Proof.
  assert (H1 : kc_valid Sample.red) by (unfold kc_valid, KC_MAX; cbn; lia).
  assert (H2 : kc_valid Sample.white) by (unfold kc_valid, KC_MAX; cbn; lia).
  assert (H3 : 0 <= 0 < 3) by lia.
  assert (H4 : kc_a Sample.red 0 = kc_a Sample.white 0) by reflexivity.
  split; [exact sample_tables_ok |].
  split; [exact H1 |]. split; [exact H2 |]. split; [exact H3 |].
  split; [exact H4 |].
  exact (kc_revgamma_transform_componentwise Sample.tables Sample.red
           Sample.white 0 sample_tables_ok H1 H2 H3 H4).
Defined.

(** ** Round trip through the gamma tables *)

Lemma shiftr7_step (c : Z) : Z.shiftr (c + 0x80) 7 = Z.shiftr c 7 + 1.
Proof.
  rewrite !Z.shiftr_div_pow2 by lia. change (2 ^ 7) with 128.
  replace (c + 0x80) with (c + 1 * 128) by lia.
  apply Z.div_add. lia.
Qed.

(** From a candidate whose sample index is not past [j], over forward
    entries up to [j] that do not exceed [xd] and a next entry that does,
    the probing loop stops at the candidate of sample index [j]. *)
Lemma revgamma_probe_reaches (gamma_tables : list (list Z)) (xd j : Z) :
  gamma_tables_okb gamma_tables = true ->
  j <= 255 ->
  (forall g, gamma_at gamma_tables 0 (j + 1) = Done g -> xd < g) ->
  forall (n : nat) (c : Z) (fuel : nat),
    0 <= c ->
    Z.shiftr c 7 + Z.of_nat n = j ->
    (n < fuel)%nat ->
    (forall m g, Z.shiftr c 7 < m <= j ->
                 gamma_at gamma_tables 0 m = Done g -> g <= xd) ->
    revgamma_probe gamma_tables fuel xd c = Done (c + 0x80 * Z.of_nat n).
Proof.
  intros Hok Hj Hnext.
  induction n as [| n IH]; intros c fuel Hc Hidx Hfuel Hbelow;
    (destruct fuel as [| fuel]; [lia |]); rewrite revgamma_probe_unfold.
  - replace (c + 0x80 * Z.of_nat 0) with c by lia.
    destruct (Z.ltb_spec c 0x7F80) as [Hlt | Hge]; [| reflexivity].
    destruct (gamma_at_ok gamma_tables 0 (Z.shiftr (c + 0x80) 7) Hok)
      as (g & Hg & _);
      [left; reflexivity | apply shiftr7_index; unfold KC_MAX; lia |].
    rewrite Hg. cbn [bind].
    rewrite shiftr7_step in Hg. replace (Z.shiftr c 7 + 1) with (j + 1) in Hg by lia.
    specialize (Hnext g Hg).
    destruct (Z.geb_spec xd g); [lia | reflexivity].
  - assert (Hlt : c < 0x7F80).
    { assert (Z.shiftr c 7 <= 254) by lia.
      rewrite Z.shiftr_div_pow2 in H by lia. change (2 ^ 7) with 128 in H.
      pose proof (Z.div_mod c 128 ltac:(lia)).
      pose proof (Z.mod_pos_bound c 128 ltac:(lia)). lia. }
    replace (c <? 0x7F80) with true by (symmetry; apply Z.ltb_lt; exact Hlt).
    destruct (gamma_at_ok gamma_tables 0 (Z.shiftr (c + 0x80) 7) Hok)
      as (g & Hg & _);
      [left; reflexivity | apply shiftr7_index; unfold KC_MAX; lia |].
    rewrite Hg. cbn [bind].
    assert (Hle : g <= xd).
    { apply (Hbelow (Z.shiftr (c + 0x80) 7) g); [| exact Hg].
      rewrite shiftr7_step. lia. }
    replace (xd >=? g) with true by (symmetry; apply Z.geb_le; lia).
    rewrite (IH (c + 0x80) fuel); [f_equal; lia | lia | | lia |].
    + rewrite shiftr7_step. lia.
    + intros m g' Hm. apply Hbelow. rewrite shiftr7_step in Hm. lia.
Qed.

(** A component that encodes a recoverable channel value [j] is sent by
    the probing loop to a value of sample index [j]. *)
Lemma component_run_roundtrip (gamma_tables : list (list Z)) (j g e r : Z) :
  gamma_tables_okb gamma_tables = true ->
  forward_monotone gamma_tables ->
  gamma_at gamma_tables 0 j = Done g ->
  Z.shiftr e 7 <= j ->
  (forall g', gamma_at gamma_tables 0 (j + 1) = Done g' -> g < g') ->
  component_run gamma_tables g e r ->
  Z.shiftr r 7 = j.
Proof.
  intros Hok Hmono Hg He Hnext (Hest & Hrun & _).
  destruct (gamma_at_range gamma_tables 0 j g Hok (or_introl eq_refl) Hg)
    as [Hj _].
  destruct (gamma_at_range gamma_tables 1 _ e Hok (or_intror eq_refl) Hest)
    as [_ Hre].
  assert (H0 : 0 <= Z.shiftr e 7) by (apply Z.shiftr_nonneg; lia).
  assert (Ei : Z.shiftr e 7 = e / 128)
    by (rewrite Z.shiftr_div_pow2 by lia; reflexivity).
  remember (Z.to_nat (j - Z.shiftr e 7)) as n eqn:En.
  assert (Hreach : revgamma_probe gamma_tables revgamma_fuel g e
                   = Done (e + 0x80 * Z.of_nat n)).
  { apply (revgamma_probe_reaches gamma_tables g j Hok ltac:(lia) Hnext).
    - lia.
    - lia.
    - unfold revgamma_fuel. lia.
    - intros m g' Hm Hg'. exact (Hmono m j g' g ltac:(lia) Hg' Hg). }
  assert (Er : r = e + (j - e / 128) * 128).
  { rewrite Hreach in Hrun.
    assert (E : r = e + 0x80 * Z.of_nat n) by congruence. lia. }
  rewrite Er. rewrite Z.shiftr_div_pow2 by lia. change (2 ^ 7) with 128.
  rewrite Z.div_add by lia. lia.
Qed.

(** X13: round trip: when the forward table never decreases and the three
    channel values are recoverable, the reverse gamma transform of the
    colour [kc_set8g] makes has the channel values as sample indexes, and
    [kc_set8g] on those indexes gives the colour back. *)
Theorem gamma_round_trip (gamma_tables : list (list Z)) (x : kcolor)
        (j0 j1 j2 : Z) :
  gamma_tables_okb gamma_tables = true ->
  forward_monotone gamma_tables ->
  roundtrip_channel gamma_tables j0 ->
  roundtrip_channel gamma_tables j1 ->
  roundtrip_channel gamma_tables j2 ->
  exists k k',
    kc_set8g gamma_tables x j0 j1 j2 = Done k /\
    kc_revgamma_transform gamma_tables k = Done k' /\
    Z.shiftr (a_0 k') 7 = j0 /\
    Z.shiftr (a_1 k') 7 = j1 /\
    Z.shiftr (a_2 k') 7 = j2 /\
    kc_set8g gamma_tables x (Z.shiftr (a_0 k') 7) (Z.shiftr (a_1 k') 7)
             (Z.shiftr (a_2 k') 7) = Done k.
Proof.
  intros Hok Hmono (g0 & e0 & G0 & E0 & I0 & N0) (g1 & e1 & G1 & E1 & I1 & N1)
         (g2 & e2 & G2 & E2 & I2 & N2).
  destruct (gamma_at_range gamma_tables 0 j0 g0 Hok (or_introl eq_refl) G0)
    as [R0 _].
  destruct (gamma_at_range gamma_tables 0 j1 g1 Hok (or_introl eq_refl) G1)
    as [R1 _].
  destruct (gamma_at_range gamma_tables 0 j2 g2 Hok (or_introl eq_refl) G2)
    as [R2 _].
  destruct (kc_set8g_inside gamma_tables Hok x j0 j1 j2)
    as (h0 & h1 & h2 & F0 & F1 & F2 & Hset & Hval); try lia.
  assert (h0 = g0) by congruence. assert (h1 = g1) by congruence.
  assert (h2 = g2) by congruence. subst h0 h1 h2.
  destruct (kc_revgamma_transform_components gamma_tables _ Hok Hval)
    as (f0 & f1 & f2 & r0 & r1 & r2 & Hrun & C0 & C1 & C2).
  cbn [a_0 a_1 a_2] in C0, C1, C2.
  assert (f0 = e0) by (destruct C0 as (Q & _); congruence).
  assert (f1 = e1) by (destruct C1 as (Q & _); congruence).
  assert (f2 = e2) by (destruct C2 as (Q & _); congruence).
  subst f0 f1 f2.
  pose proof (component_run_roundtrip gamma_tables j0 g0 e0 r0 Hok Hmono G0 I0 N0 C0)
    as S0.
  pose proof (component_run_roundtrip gamma_tables j1 g1 e1 r1 Hok Hmono G1 I1 N1 C1)
    as S1.
  pose proof (component_run_roundtrip gamma_tables j2 g2 e2 r2 Hok Hmono G2 I2 N2 C2)
    as S2.
  exists (Kcolor g0 g1 g2), (Kcolor r0 r1 r2). cbn [a_0 a_1 a_2].
  split; [exact Hset |]. split; [exact Hrun |].
  split; [exact S0 |]. split; [exact S1 |]. split; [exact S2 |].
  rewrite S0, S1, S2. exact Hset.
Qed.

Lemma sample_roundtrip_channel (j : Z) :
  0 <= j <= 255 -> roundtrip_channel Sample.tables j.
Proof.
  intros Hj.
  destruct (gamma_at_ok Sample.tables 0 j sample_tables_ok)
    as (g & Hg & Hrg); [left; reflexivity | lia |].
  destruct (sample_forward_at j g Hg) as [_ Eg].
  assert (Hg7 : 0 <= Z.shiftr g 7 < 256) by (apply shiftr7_index, Hrg).
  destruct (gamma_at_ok Sample.tables 1 (Z.shiftr g 7) sample_tables_ok)
    as (e & He & Hre); [right; reflexivity | exact Hg7 |].
  exists g, e. split; [exact Hg |]. split; [exact He |]. split.
  - (* the reverse entry at [i] is [(2 * i * 32767 + 256) / 512] *)
    assert (Ee : e = (2 * Z.shiftr g 7 * 32767 + 256) / 512).
    { unfold gamma_at in He.
      change (array_get Sample.tables 1) with (Done Sample.reverse_table) in He.
      cbn [bind] in He. unfold array_get in He.
      replace (Z.shiftr g 7 <? 0) with false in He
        by (symmetry; apply Z.ltb_ge; lia).
      unfold Sample.reverse_table, Sample.indexes in He.
      rewrite !nth_error_map, nth_error_seq in He.
      replace (Nat.ltb (Z.to_nat (Z.shiftr g 7)) 256) with true in He
        by (symmetry; apply Nat.ltb_lt; lia).
      cbn [option_map] in He. injection He as <-.
      cbn [Nat.add]. rewrite Z2Nat.id by lia. reflexivity. }
    rewrite Z.shiftr_div_pow2 in * by lia. change (2 ^ 7) with 128 in *.
    set (i := g / 128) in *.
    assert (Hi : i <= j).
    { subst i g. apply Z.lt_succ_r. apply Z.div_lt_upper_bound; [lia |].
      apply Z.div_lt_upper_bound; lia. }
    subst e. apply Z.lt_succ_r. apply Z.div_lt_upper_bound; [lia |].
    apply Z.div_lt_upper_bound; lia.
  - intros g' Hg'. destruct (sample_forward_at (j + 1) g' Hg') as [_ ->].
    subst g. apply Z.lt_le_trans with ((2 * j * 32767 + 255) / 510 + 1); [lia |].
    replace ((2 * j * 32767 + 255) / 510 + 1)
      with ((2 * j * 32767 + 255 + 1 * 510) / 510)
      by (rewrite Z.div_add by lia; reflexivity).
    apply Z.div_le_mono; lia.
Qed.

Lemma gamma_round_trip_witness :
  gamma_tables_okb Sample.tables = true /\
  forward_monotone Sample.tables /\
  roundtrip_channel Sample.tables 250 /\
  roundtrip_channel Sample.tables 10 /\
  roundtrip_channel Sample.tables 255 /\
  exists k k',
    kc_set8g Sample.tables Sample.black 250 10 255 = Done k /\
    kc_revgamma_transform Sample.tables k = Done k' /\
    Z.shiftr (a_0 k') 7 = 250 /\
    Z.shiftr (a_1 k') 7 = 10 /\
    Z.shiftr (a_2 k') 7 = 255 /\
    kc_set8g Sample.tables Sample.black (Z.shiftr (a_0 k') 7)
             (Z.shiftr (a_1 k') 7) (Z.shiftr (a_2 k') 7) = Done k.
Proof.
  assert (H0 : roundtrip_channel Sample.tables 250)
    by (apply sample_roundtrip_channel; lia).
  assert (H1 : roundtrip_channel Sample.tables 10)
    by (apply sample_roundtrip_channel; lia).
  assert (H2 : roundtrip_channel Sample.tables 255)
    by (apply sample_roundtrip_channel; lia).
  split; [exact sample_tables_ok |]. split; [exact sample_forward_monotone |].
  split; [exact H0 |]. split; [exact H1 |]. split; [exact H2 |].
  exact (gamma_round_trip Sample.tables Sample.black 250 10 255
                          sample_tables_ok sample_forward_monotone H0 H1 H2).
Defined.

(** ** kd3_disable and kd3_enable_all together *)

(** X14: a successful [kd3_disable] changes the disabled slot only, so the
    colours, the counters, the tree and the radii stay as built; and
    [kd3_enable_all] undoes it: it gives the index back exactly when no
    index was disabled before (the slot holding -1). *)
Theorem kd3_disable_enable_round_trip {T : Type} (kd3 kd3' : kd3_tree T) (i : Z) :
  kd3_disable kd3 i = Done kd3' ->
  (ks kd3' = ks kd3 /\ nitems kd3' = nitems kd3 /\ tree kd3' = tree kd3 /\
   xradius kd3' = xradius kd3 /\ transform kd3' = transform kd3 /\
   ntree kd3' = ntree kd3 /\ items_cap kd3' = items_cap kd3 /\
   maxdepth kd3' = maxdepth kd3) /\
  kd3_enable_all kd3' = kd3_enable_all kd3 /\
  (disabled kd3 = -1 <-> kd3_enable_all kd3' = kd3).
Proof.
  unfold kd3_disable. intros H.
  destruct (to_uint32 i <? to_uint32 (nitems kd3)); [| discriminate].
  destruct ((disabled kd3 <? 0) || (disabled kd3 =? i)); [| discriminate].
  injection H as <-. split; [repeat split |]. split; [reflexivity |].
  split.
  - intros Hd. destruct kd3. cbn in *. subst. reflexivity.
  - intros Hback. rewrite <- Hback. reflexivity.
Qed.

Lemma kd3_disable_enable_round_trip_witness :
  kd3_disable Sample.built 2 = Done Sample.without_red /\
  disabled Sample.built = -1 /\
  kd3_enable_all Sample.without_red = Sample.built.
Proof.
  assert (H : kd3_disable Sample.built 2 = Done Sample.without_red)
    by reflexivity.
  assert (Hd : disabled Sample.built = -1) by reflexivity.
  split; [exact H |]. split; [exact Hd |].
  destruct (kd3_disable_enable_round_trip Sample.built Sample.without_red 2 H)
    as (_ & _ & Hback).
  exact (proj1 Hback Hd).
Defined.

(** X15: at most one index is disabled at a time: after a successful
    [kd3_disable(kd3, i)], disabling another valid index aborts on the
    second assertion, disabling [i] again succeeds and changes nothing,
    and after [kd3_enable_all] every valid index can be disabled. *)
Theorem kd3_one_disabled {T : Type} (kd3 kd3' : kd3_tree T) (i j : Z) :
  kd3_wf kd3 ->
  - 2 ^ 31 <= i < 2 ^ 31 ->
  kd3_disable kd3 i = Done kd3' ->
  0 <= j < nitems kd3 ->
  (j <> i -> kd3_disable kd3' j = Stop AssertionFailed) /\
  kd3_disable kd3' i = Done kd3' /\
  kd3_disable (kd3_enable_all kd3') j = Done (set_disabled kd3 j).
Proof.
  intros (Hn & Hlt & Hdis) Hi Hrun Hj.
  assert (Hn0 : 0 <= nitems kd3 < 2 ^ 31) by (rewrite Hn in *; lia).
  assert (Hjint : - 2 ^ 31 <= j < 2 ^ 31) by lia.
  unfold kd3_disable in Hrun.
  rewrite (unsigned_index_check i _ Hi Hn0) in Hrun.
  destruct (Z.leb_spec 0 i) as [Hi0 | ?]; [| discriminate].
  destruct (Z.ltb_spec i (nitems kd3)) as [Hi1 | ?]; [| discriminate].
  cbn [andb] in Hrun.
  destruct ((disabled kd3 <? 0) || (disabled kd3 =? i)); [| discriminate].
  injection Hrun as <-.
  unfold kd3_disable, kd3_enable_all. cbn [nitems disabled set_disabled].
  rewrite (unsigned_index_check j _ Hjint Hn0), (unsigned_index_check i _ Hi Hn0).
  replace (0 <=? j) with true by (symmetry; apply Z.leb_le; lia).
  replace (j <? nitems kd3) with true by (symmetry; apply Z.ltb_lt; lia).
  replace (0 <=? i) with true by (symmetry; apply Z.leb_le; lia).
  replace (i <? nitems kd3) with true by (symmetry; apply Z.ltb_lt; lia).
  cbn [andb].
  split; [| split].
  - intros Hne.
    replace (i <? 0) with false by (symmetry; apply Z.ltb_ge; lia).
    replace (i =? j) with false by (symmetry; apply Z.eqb_neq; lia).
    reflexivity.
  - rewrite Z.eqb_refl, orb_true_r. reflexivity.
  - reflexivity.
Qed.

Lemma kd3_one_disabled_witness :
  kd3_wf Sample.built /\
  - 2 ^ 31 <= 2 < 2 ^ 31 /\
  kd3_disable Sample.built 2 = Done Sample.without_red /\
  0 <= 1 < nitems Sample.built /\
  1 <> 2 /\
  kd3_disable Sample.without_red 1 = Stop AssertionFailed /\
  kd3_disable Sample.without_red 2 = Done Sample.without_red /\
  kd3_disable (kd3_enable_all Sample.without_red) 1
    = Done (set_disabled Sample.built 1).
Proof.
  assert (Hwf : kd3_wf Sample.built) by (apply sample_built).
  assert (Hi : - 2 ^ 31 <= 2 < 2 ^ 31) by (change (2 ^ 31) with 2147483648; lia).
  assert (Hr : kd3_disable Sample.built 2 = Done Sample.without_red)
    by reflexivity.
  assert (Hj : 0 <= 1 < nitems Sample.built) by (cbn; lia).
  assert (Hne : 1 <> 2) by lia.
  split; [exact Hwf |]. split; [exact Hi |]. split; [exact Hr |].
  split; [exact Hj |]. split; [exact Hne |].
  destruct (kd3_one_disabled Sample.built Sample.without_red 2 1 Hwf Hi Hr Hj)
    as (H1 & H2 & H3).
  split; [exact (H1 Hne) |]. split; [exact H2 | exact H3].
Defined.
